(** * quigo-backend: the quiz sanitizer, grading engine and attempt reconciler

    A shallow embedding of the core of [main.py]: the text sanitizer
    [clean_json_text], the AI evaluation helper [evaluate_submission_ai], the
    grading parts of [submit_student_quiz] and [submit_individual_attempt],
    and the attempt reuse of [generate_student_quiz].

    Python strings are lists of characters; a character is an 8-bit code
    point (the Latin-1 range of Unicode), and the character classes below
    are Python's for that range. Floats are binary64 numbers. What the
    handlers get from outside (the replies of the LLM provider, the JSON
    parser, the interpreter's version) is a [runtime]; the rows they load
    and store are a [world] or, where a claim looks at the grading only, the
    arguments of the handler's model. *)

From Stdlib Require Import List Ascii String ZArith Lia Bool PeanoNat.
From Stdlib Require Import Floats.SpecFloat DecimalString DecimalZ.
Import ListNotations.

Local Open Scope list_scope.

(** ** Python strings *)

Definition str : Type := list ascii.

(** A literal, written as a Rocq string. *)
Definition lit (s : string) : str := list_ascii_of_string s.

Definition chr_eqb (a b : ascii) : bool := Ascii.eqb a b.

Fixpoint str_eqb (a b : str) : bool :=
  match a, b with
  | [], [] => true
  | x :: a', y :: b' => chr_eqb x y && str_eqb a' b'
  | _, _ => false
  end.

Definition code (c : ascii) : nat := nat_of_ascii c.

Definition between (lo hi n : nat) : bool := (lo <=? n) && (n <=? hi).

(** [str.isspace] / the regex class [\s] on one character. *)
Definition is_space (c : ascii) : bool :=
  let n := code c in
  between 9 13 n || between 28 32 n || (n =? 133) || (n =? 160).

(** The regex class [\w] on one character: alphanumeric or underscore. *)
Definition is_word (c : ascii) : bool :=
  let n := code c in
  between 48 57 n || between 65 90 n || (n =? 95) || between 97 122 n
  || (n =? 170) || between 178 179 n || (n =? 181) || between 185 186 n
  || between 188 190 n || between 192 214 n || between 216 246 n
  || between 248 255 n.

(** [str.lower] on one character. *)
Definition lower_chr (c : ascii) : ascii :=
  let n := code c in
  if between 65 90 n || between 192 214 n || between 216 222 n
  then ascii_of_nat (n + 32) else c.

Definition lower (s : str) : str := map lower_chr s.

Fixpoint lstrip (s : str) : str :=
  match s with
  | c :: s' => if is_space c then lstrip s' else s
  | [] => []
  end.

Definition rstrip (s : str) : str := rev (lstrip (rev s)).

Definition strip (s : str) : str := rstrip (lstrip s).

(** [s.startswith(p)] *)
Fixpoint startswith (p s : str) : bool :=
  match p, s with
  | [], _ => true
  | x :: p', y :: s' => chr_eqb x y && startswith p' s'
  | _ :: _, [] => false
  end.

(** [s.find(p)]; [None] stands for Python's [-1]. *)
Fixpoint find (p s : str) : option nat :=
  if startswith p s then Some 0
  else match s with
       | [] => None
       | _ :: s' => option_map S (find p s')
       end.

(** [p in s] *)
Definition contains (p s : str) : bool :=
  match find p s with Some _ => true | None => false end.

(** [s.rfind(c)] for a one-character [c]. *)
Fixpoint rfind_chr (c : ascii) (s : str) : option nat :=
  match s with
  | [] => None
  | x :: s' =>
      match rfind_chr c s' with
      | Some i => Some (S i)
      | None => if chr_eqb x c then Some 0 else None
      end
  end.

(** [s.split(sep)] for a non-empty separator: [skip] counts the characters
    of a separator still to be passed over, [cur] is the piece being read,
    reversed. *)
Fixpoint split_aux (sep : str) (skip : nat) (cur : str) (s : str) : list str :=
  match s with
  | [] => [rev cur]
  | c :: s' =>
      match skip with
      | S k => split_aux sep k cur s'
      | O =>
          if startswith sep s
          then rev cur :: split_aux sep (List.length sep - 1) [] s'
          else split_aux sep 0 (c :: cur) s'
      end
  end.

Definition split (sep s : str) : list str := split_aux sep 0 [] s.

(** [l[i]] on a list of pieces known to be long enough. *)
Definition piece (i : nat) (l : list str) : str := nth i l [].

(** [s[a:b]] and [s[a:]] *)
Definition slice (a b : nat) (s : str) : str := firstn (b - a) (skipn a s).
Definition slice_from (a : nat) (s : str) : str := skipn a s.

(** ** Regular expressions

    [re.sub(pattern, repl, s)] for a pattern that never matches the empty
    string: [m s] is the match of the pattern anchored at the head of [s],
    as the number of characters consumed and the text that replaces them.
    The scan goes left to right over non-overlapping matches. *)

Definition matcher : Type := str -> option (nat * str).

Fixpoint re_sub_aux (m : matcher) (skip : nat) (s : str) : str :=
  match s with
  | [] => []
  | c :: s' =>
      match skip with
      | S k => re_sub_aux m k s'
      | O =>
          match m s with
          | Some (n, repl) => repl ++ re_sub_aux m (n - 1) s'
          | None => c :: re_sub_aux m 0 s'
          end
      end
  end.

Definition re_sub (m : matcher) (s : str) : str := re_sub_aux m 0 s.

(** Length of the run matched by a greedy [\s*]. *)
Fixpoint spaces (s : str) : nat :=
  match s with
  | c :: s' => if is_space c then S (spaces s') else 0
  | [] => 0
  end.

Definition comma : ascii := ","%char.
Definition colon : ascii := ":"%char.
Definition slash : ascii := "/"%char.
Definition newline : ascii := ascii_of_nat 10.
Definition lbrace : ascii := "{"%char.
Definition rbrace : ascii := "}"%char.
Definition rbracket : ascii := "]"%char.

Definition is_closer (c : ascii) : bool := chr_eqb c rbracket || chr_eqb c rbrace.

(** [,\s*([\]}])] replaced by [\1] *)
Definition m_trailing_comma : matcher := fun s =>
  match s with
  | c :: t =>
      if chr_eqb c comma then
        match skipn (spaces t) t with
        | b :: _ => if is_closer b then Some (spaces t + 2, [b]) else None
        | [] => None
        end
      else None
  | [] => None
  end.

(** [//.*?\n] replaced by a newline; [.] matches all but the newline. *)
Definition m_comment : matcher := fun s =>
  match s with
  | a :: b :: t =>
      if chr_eqb a slash && chr_eqb b slash then
        match find [newline] t with
        | Some j => Some (j + 3, [newline])
        | None => None
        end
      else None
  | _ => None
  end.

(** [\b] after a word character: the next character is not a word one. *)
Definition word_ends (s : str) : bool :=
  match s with
  | c :: _ => negb (is_word c)
  | [] => true
  end.

(** [:\s*None] replaced by [: null] *)
Definition m_none : matcher := fun s =>
  match s with
  | c :: t =>
      if chr_eqb c colon && startswith (lit "None") (skipn (spaces t) t)
      then Some (spaces t + 5, lit ": null") else None
  | [] => None
  end.

(** [:\s*\bTrue\b] replaced by [: true]; the first [\b] stands between a
    colon or a space and the letter, and always holds. *)
Definition m_true : matcher := fun s =>
  match s with
  | c :: t =>
      if chr_eqb c colon && startswith (lit "True") (skipn (spaces t) t)
         && word_ends (skipn (spaces t + 4) t)
      then Some (spaces t + 5, lit ": true") else None
  | [] => None
  end.

(** [:\s*\bFalse\b] replaced by [: false] *)
Definition m_false : matcher := fun s =>
  match s with
  | c :: t =>
      if chr_eqb c colon && startswith (lit "False") (skipn (spaces t) t)
         && word_ends (skipn (spaces t + 5) t)
      then Some (spaces t + 6, lit ": false") else None
  | [] => None
  end.

Definition fence : str := lit "```".
Definition fence_json : str := lit "```json".

(** The lazy group [(.*?)] followed by [\s*```], with the dot matching every
    character: the shortest prefix after which, spaces skipped, a fence
    starts. *)
Fixpoint lazy_group (acc : str) (t : str) : option str :=
  if startswith fence (lstrip t) then Some (rev acc)
  else match t with
       | [] => None
       | c :: t' => lazy_group (c :: acc) t'
       end.

(** [\s*(.*?)\s*```] anchored at the head of [t]; the group. *)
Definition fence_tail (t : str) : option str := lazy_group [] (lstrip t).

(** [```(?:json)?\s*(.*?)\s*```] anchored at the head of [s]; the group. *)
Definition fence_at (s : str) : option str :=
  if startswith fence s then
    let r := skipn 3 s in
    match (if startswith (lit "json") r then fence_tail (skipn 4 r) else None) with
    | Some g => Some g
    | None => fence_tail r
    end
  else None.

(** [re.findall(r'```(?:json)?\s*(.*?)\s*```', s, re.DOTALL)], its first
    element when the list is not empty. *)
Fixpoint first_block (s : str) : option str :=
  match fence_at s with
  | Some g => Some g
  | None => match s with
            | [] => None
            | _ :: s' => first_block s'
            end
  end.

(** ** The sanitizer *)

(** The markdown-fence step of [clean_json_text]. *)
Definition unfence (text : str) : str :=
  if contains fence_json text then
    piece 0 (split fence (piece 1 (split fence_json text)))
  else if contains fence text then
    match first_block text with
    | Some block => block
    | None => piece 0 (split fence (piece 1 (split fence text)))
    end
  else text.

(** The four textual repairs of [clean_json_text], in the source's order. *)
Definition fix_trailing_commas (text : str) : str := re_sub m_trailing_comma text.
Definition fix_comments (text : str) : str := re_sub m_comment text.
Definition fix_literals (text : str) : str :=
  re_sub m_false (re_sub m_true (re_sub m_none text)).

Definition clean_json_text (text0 : str) : str :=
  let text := strip text0 in
  let text := unfence text in
  let text := strip text in
  match find [lbrace] text with
  | None => []
  | Some start =>
      let text :=
        match rfind_chr rbrace text with
        | None => slice_from start text ++ newline :: lit "  ]" ++ newline :: lit "}"
        | Some e =>
            if e <? start
            then slice_from start text ++ newline :: lit "  ]" ++ newline :: lit "}"
            else slice start (e + 1) text
        end in
      let text := fix_trailing_commas text in
      let text := fix_comments text in
      let text := fix_literals text in
      strip text
  end.


(** ** Python numbers

    A [float] is an IEEE 754 binary64 number, in the representation of the
    Standard Library's [SpecFloat], with round-to-nearest-even arithmetic. *)

Local Open Scope Z_scope.

Definition float : Type := spec_float.

Definition prec : Z := 53.
Definition emax : Z := 1024.

Definition fzero : float := S754_zero false.
Definition fone : float := S754_finite false 4503599627370496 (-52).

Definition fadd (x y : float) : float := SFadd prec emax x y.

(** The float nearest to [num / den], for positive [num] and [den], signed. *)
Definition float_of_ratio (neg : bool) (num den : Z) : float :=
  if num =? 0 then S754_zero neg
  else let '(mz, ez, lz) := SFdiv_core_binary prec emax num 0 den 0 in
       binary_round_aux prec emax neg mz ez lz.

(** [float(z)] for an [int]; [None] is [OverflowError]. *)
Definition float_of_int (z : Z) : option float :=
  match binary_normalize prec emax z 0 false with
  | S754_infinity _ => None
  | f => Some f
  end.

(** [x.is_integer()] *)
Definition is_integer (x : float) : bool :=
  match x with
  | S754_zero _ => true
  | S754_finite _ m e =>
      if 0 <=? e then true else Zpos m mod 2 ^ (- e) =? 0
  | _ => false
  end.

(** [int(x)], truncation towards zero; read on finite floats only. *)
Definition int_of_float (x : float) : Z :=
  match x with
  | S754_finite s m e =>
      let a := if 0 <=? e then Zpos m * 2 ^ e else Zpos m / 2 ^ (- e) in
      if s then - a else a
  | _ => 0
  end.

(** [num / den] rounded to the nearest integer, ties to even. *)
Definition div_half_even (num den : Z) : Z :=
  let q := num / den in
  let r := num mod den in
  match 2 * r ?= den with
  | Lt => q
  | Gt => q + 1
  | Eq => if Z.even q then q else q + 1
  end.

(** The exact value of a finite float's magnitude, as a fraction. *)
Definition magnitude (m : positive) (e : Z) : Z * Z :=
  if 0 <=? e then (Zpos m * 2 ^ e, 1) else (Zpos m, 2 ^ (- e)).

(** [round(x, ndigits)] for [0 <= ndigits]: the exact value is rounded to
    that many decimals, ties to even, and the decimal is read back as the
    nearest float; infinities and the not-a-number round to themselves. *)
Definition round_float (x : float) (ndigits : Z) : float :=
  match x with
  | S754_finite s m e =>
      let '(num, den) := magnitude m e in
      float_of_ratio s (div_half_even (num * 10 ^ ndigits) den) (10 ^ ndigits)
  | _ => x
  end.

(** Decimal digits of an integer. *)
Definition str_of_Z (z : Z) : str :=
  lit (NilEmpty.string_of_int (Z.to_int z)).

Fixpoint ndigits_fuel (fuel : nat) (z : Z) : Z :=
  match fuel with
  | O => 1
  | S f => if z <? 10 then 1 else 1 + ndigits_fuel f (z / 10)
  end.

(** Number of decimal digits of a positive integer. *)
Definition ndigits (z : Z) : Z := ndigits_fuel (Z.to_nat (Z.log2 z)) z.

(** The decimal point of a positive fraction: the [p] with
    [10^(p-1) <= num/den < 10^p]. *)
Definition decpt_of (num den : Z) : Z :=
  if den <=? num then ndigits (num / den) else 1 - ndigits (den / num).

(** [num/den * 10^k] as a fraction. *)
Definition scale10 (num den k : Z) : Z * Z :=
  if 0 <=? k then (num * 10 ^ k, den) else (num, den * 10 ^ (- k)).

(** Two finite floats of the same mantissa and exponent. *)
Definition same_finite (x y : float) : bool :=
  match x, y with
  | S754_finite _ m e, S754_finite _ m' e' => (Zpos m =? Zpos m') && (e =? e')
  | _, _ => false
  end.

Fixpoint strip_zeros_fuel (fuel : nat) (q : Z) : Z :=
  match fuel with
  | O => q
  | S f => if (q mod 10 =? 0) && negb (q =? 0) then strip_zeros_fuel f (q / 10) else q
  end.

(** The shortest decimal that reads back as the float [m * 2^e]: the digits
    as an integer without trailing zeros, and the decimal point [p], the
    value being [0.digits * 10^p]. With [n] digits the two decimals around
    the value are tried, the nearer first. *)
Fixpoint shortest_fuel (fuel : nat) (n : Z) (m : positive) (e : Z) : Z * Z :=
  let '(num, den) := magnitude m e in
  let p := decpt_of num den in
  let '(sn, sd) := scale10 num den (n - p) in
  let lo := sn / sd in
  let hi := lo + 1 in
  let reads_back q :=
    let '(qn, qd) := scale10 q 1 (p - n) in
    same_finite (float_of_ratio false qn qd) (float_of_ratio false num den) in
  let near := div_half_even sn sd in
  let far := if near =? lo then hi else lo in
  let finish q := (strip_zeros_fuel 20 q, p + (ndigits q - n)) in
  if reads_back near then finish near
  else if reads_back far then finish far
  else match fuel with
       | O => finish near
       | S f => shortest_fuel f (n + 1) m e
       end.

Definition shortest (m : positive) (e : Z) : Z * Z := shortest_fuel 16 1 m e.

Definition zeros (n : Z) : str := repeat "0"%char (Z.to_nat n).

(** Exponent of the scientific notation: a sign and two digits at least. *)
Definition str_of_exponent (x : Z) : str :=
  (if x <? 0 then "-"%char else "+"%char)
    :: (if Z.abs x <? 10 then ["0"%char] else []) ++ str_of_Z (Z.abs x).

(** [repr(x)] of a float, which is also [str(x)] and what an f-string
    writes. *)
Definition repr_float (x : float) : str :=
  match x with
  | S754_nan => lit "nan"
  | S754_infinity s => if s then lit "-inf" else lit "inf"
  | S754_zero s => if s then lit "-0.0" else lit "0.0"
  | S754_finite s m e =>
      let '(q, p) := shortest m e in
      let ds := str_of_Z q in
      let n := Z.of_nat (List.length ds) in
      let body :=
        if (p <=? -4) || (16 <? p) then
          firstn 1 ds
            ++ (if 1 <? n then "."%char :: skipn 1 ds else [])
            ++ "e"%char :: str_of_exponent (p - 1)
        else if p <=? 0 then lit "0." ++ zeros (- p) ++ ds
        else if p <? n then
          firstn (Z.to_nat p) ds ++ "."%char :: skipn (Z.to_nat p) ds
        else ds ++ zeros (p - n) ++ lit ".0" in
      if s then "-"%char :: body else body
  end.

(** ** Python values

    The values of the fields of a question, of a grade entry and of a
    submitted answer: the scalars of a JSON document. Fields that are
    themselves arrays or objects are not modelled. *)

Inductive pyval :=
| PNone
| PBool (b : bool)
| PInt (z : Z)
| PFloat (f : float)
| PStr (s : str).

(** [str(v)] *)
Definition py_str (v : pyval) : str :=
  match v with
  | PNone => lit "None"
  | PBool b => if b then lit "True" else lit "False"
  | PInt z => str_of_Z z
  | PFloat f => repr_float f
  | PStr s => s
  end.

(** Truth value of [v] in a condition. *)
Definition truthy (v : pyval) : bool :=
  match v with
  | PNone => false
  | PBool b => b
  | PInt z => negb (z =? 0)
  | PFloat (S754_zero _) => false
  | PFloat _ => true
  | PStr [] => false
  | PStr _ => true
  end.

(** A [dict] with string keys, in insertion order. *)
Definition dict : Type := list (str * pyval).

Fixpoint dict_get (k : str) (d : dict) : option pyval :=
  match d with
  | [] => None
  | (k', v) :: d' => if str_eqb k' k then Some v else dict_get k d'
  end.

(** [k in d] *)
Definition dict_has (k : str) (d : dict) : bool :=
  match dict_get k d with Some _ => true | None => false end.

(** [d.get(k)] *)
Definition get (k : str) (d : dict) : pyval :=
  match dict_get k d with Some v => v | None => PNone end.

(** [d[k] = v] *)
Fixpoint dict_set (k : str) (v : pyval) (d : dict) : dict :=
  match d with
  | [] => [(k, v)]
  | (k', v') :: d' =>
      if str_eqb k' k then (k, v) :: d' else (k', v') :: dict_set k v d'
  end.

(** ** The run-time environment

    What the code receives from outside: the replies of the LLM provider,
    the JSON parser, the float parser and the version of the interpreter. *)

(** A reply of [client.models.generate_content]: the call raises, or it
    returns a response whose [text] is a string or [None]. *)
Inductive llm_reply :=
| LlmRaises
| LlmText (text : option str).

(** An element of a parsed array: an object, or any other value. *)
Inductive item :=
| Obj (d : dict)
| NotObj.

(** The value under the key [results] of a parsed grading response: no such
    key; an array; an empty string or an empty object, over which a loop
    runs no step; any other value, over which the grading loop raises. *)
Inductive results_value :=
| RMissing
| RArray (items : list item)
| REmpty
| RInvalid.

(** A parsed document, as far as the code reads it: the value under
    [results] and the value under [questions] ([None] when the key is
    missing); the sanitizer's output starts with a brace, so that a document
    that parses is an object. *)
Record document := {
  doc_results : results_value;
  doc_questions : option (list dict)
}.

Record runtime := {
  (** the reply to the n-th call of the LLM provider *)
  generate_content : nat -> llm_reply;
  (** [json.loads] on a non-empty text; [None] when it raises *)
  json_loads : str -> option document;
  (** [float(s)] on a string; [None] when it raises *)
  float_of_str : str -> option float;
  (** whether [int] has the method [is_integer] (Python 3.12 and later) *)
  int_has_is_integer : bool
}.

(** [json.loads(s)]: the empty text is no document. *)
Definition loads (rt : runtime) (s : str) : option document :=
  match s with
  | [] => None
  | _ => json_loads rt s
  end.

(** [float(v)]; [None] when it raises. *)
Definition py_float (rt : runtime) (v : pyval) : option float :=
  match v with
  | PNone => None
  | PBool b => Some (if b then fone else fzero)
  | PInt z => float_of_int z
  | PFloat f => Some f
  | PStr s => float_of_str rt s
  end.

(** ** Scoring a result sequence *)

Definition fhalf : float := S754_finite false 4503599627370496 (-53).

(** [s >= 0.5] *)
Definition at_least_half (s : float) : bool := SFleb fhalf s.

(** [total_obtained]: the [int] zero it starts as, or a [float] sum. *)
Inductive total :=
| IntZero
| Sum (f : float).

(** [total_obtained += s] *)
Definition total_add (t : total) (s : float) : float :=
  match t with
  | IntZero => fadd fzero s
  | Sum f => fadd f s
  end.

(** One step of the scoring loop on the entry [r]: the score read, and the
    entry with its [score] and [correct] fields set; [None] when it raises. *)
Definition score_entry (rt : runtime) (r : dict) : option (float * dict) :=
  match dict_get (lit "score") r with
  | Some v =>
      match py_float rt v with
      | Some s => Some (s, dict_set (lit "correct") (PBool (at_least_half s)) r)
      | None => None
      end
  | None =>
      let s := if truthy (get (lit "correct") r) then fone else fzero in
      let r := dict_set (lit "score") (PFloat s) r in
      Some (s, dict_set (lit "correct") (PBool (at_least_half s)) r)
  end.

(** The scoring loop [for r in results]. *)
Fixpoint score_loop (rt : runtime) (t : total) (items : list item)
  : option (total * list dict) :=
  match items with
  | [] => Some (t, [])
  | NotObj :: _ => None
  | Obj r :: rest =>
      match score_entry rt r with
      | None => None
      | Some (s, r') =>
          match score_loop rt (Sum (total_add t s)) rest with
          | None => None
          | Some (t', rs) => Some (t', r' :: rs)
          end
      end
  end.

(** The numerator of the display score:
    [int(total) if total.is_integer() else round(total, 2)], formatted. *)
Definition numerator (rt : runtime) (t : total) : option str :=
  match t with
  | IntZero => if int_has_is_integer rt then Some (str_of_Z 0) else None
  | Sum f =>
      Some (if is_integer f then str_of_Z (int_of_float f)
            else repr_float (round_float f 2))
  end.

(** [f"{...}/{len(results)}"] *)
Definition display_score (rt : runtime) (t : total) (n : nat) : option str :=
  match numerator rt t with
  | Some num => Some (num ++ "/"%char :: str_of_Z (Z.of_nat n))
  | None => None
  end.

(** The entries a results value is read as by the loop. *)
Definition items_of (r : results_value) : option (list item) :=
  match r with
  | RMissing => Some []
  | RArray items => Some items
  | REmpty => Some []
  | RInvalid => None
  end.

(** The body of the [try] block after the document is parsed: the score
    string and the scored entries; [None] when it raises. *)
Definition score_results (rt : runtime) (r : results_value)
  : option (str * list dict) :=
  match items_of r with
  | None => None
  | Some items =>
      match score_loop rt IntZero items with
      | None => None
      | Some (t, rs) =>
          match display_score rt t (List.length items) with
          | Some sc => Some (sc, rs)
          | None => None
          end
      end
  end.

(** The reply of the LLM, sanitized, parsed and scored. *)
Definition evaluate_reply (rt : runtime) (reply : llm_reply)
  : option (str * list dict) :=
  match reply with
  | LlmRaises => None
  | LlmText None => None
  | LlmText (Some content) =>
      match loads rt (clean_json_text content) with
      | None => None
      | Some doc => score_results rt (doc_results doc)
      end
  end.

(** ** The AI evaluation helper *)

(** The dictionary a grading function returns. *)
Inductive field :=
| FScore (s : str)
| FResults (l : list dict).

Definition evaluation : Type := list (str * field).

Fixpoint field_get (k : str) (d : evaluation) : option field :=
  match d with
  | [] => None
  | (k', v) :: d' => if str_eqb k' k then Some v else field_get k d'
  end.

Definition mk_evaluation (score : str) (results : list dict) : evaluation :=
  [(lit "score", FScore score); (lit "results", FResults results)].

(** [{"score": "0/0", "results": []}] *)
Definition empty_evaluation : evaluation := mk_evaluation (lit "0/0") [].

(** [evaluate_submission_ai(questions, answers, api_key)], run when [calls]
    calls of the LLM were made; the questions and the answers go into the
    prompt only. The result comes with the number of calls made. *)
Definition evaluate_submission_ai (rt : runtime) (calls : nat)
    (questions : list dict) (answers : dict) (api_key : str)
  : evaluation * nat :=
  match api_key with
  | [] => (empty_evaluation, calls)
  | _ =>
      match evaluate_reply rt (generate_content rt calls) with
      | Some (sc, rs) => (mk_evaluation sc rs, S calls)
      | None => (empty_evaluation, S calls)
      end
  end.

(** ** Responses of the request handlers *)

(** A handler returns a body, raises an [HTTPException] with a status code,
    or lets another exception escape (the framework answers 500). *)
Inductive response (A : Type) :=
| Ok (body : A)
| HTTPException (status : Z)
| Unhandled.

Arguments Ok {A} body.
Arguments HTTPException {A} status.
Arguments Unhandled {A}.

(** ** Grading a student's submission: [submit_student_quiz]

    The handler first loads the student, the quiz of the student's classroom
    (404 when one is missing) and the attempt to update; the model starts
    from the rows loaded: the quiz format, the questions of the attempt (or
    of the quiz template) and the submitted answers. *)

Definition objective_formats : list str :=
  [lit "objective"; lit "multiple-choice"; lit "multiple_choice";
   lit "multiple choice"; lit "true_false"; lit "true or false"].

(** [quiz.quiz_format.lower() in [...]] *)
Definition is_objective (quiz_format : str) : bool :=
  existsb (str_eqb (lower quiz_format)) objective_formats.

(** [a.strip().lower() == b.strip().lower()] *)
Definition same_answer (a b : str) : bool :=
  str_eqb (lower (strip a)) (lower (strip b)).

(** The test of the local grading loop on one question. *)
Definition objective_is_correct (answers : dict) (q : dict) : bool :=
  let q_id := py_str (get (lit "id") q) in
  let student_answer := get q_id answers in
  let correct_answer := get (lit "correct_answer") q in
  if truthy student_answer && truthy correct_answer
  then same_answer (py_str student_answer) (py_str correct_answer)
  else false.

Definition score_of (is_correct : bool) : float :=
  if is_correct then fone else fzero.

(** The entry the local grading loop appends for one question. *)
Definition objective_entry (answers : dict) (q : dict) : dict :=
  let is_correct := objective_is_correct answers q in
  [(lit "id", get (lit "id") q);
   (lit "correct", PBool is_correct);
   (lit "score", PFloat (score_of is_correct));
   (lit "feedback",
    PStr (if is_correct then lit "Correct!"
          else lit "Incorrect. The correct answer was: "
                 ++ py_str (get (lit "correct_answer") q)))].

Definition count_correct {A : Type} (f : A -> bool) (l : list A) : nat :=
  List.length (filter f l).

(** [f"{correct_count}/{len(questions)}"] *)
Definition count_score (correct_count total_count : nat) : str :=
  str_of_Z (Z.of_nat correct_count) ++ "/"%char :: str_of_Z (Z.of_nat total_count).

(** The local grading branch: no call of the LLM. *)
Definition grade_objective (questions : list dict) (answers : dict) : evaluation :=
  mk_evaluation
    (count_score (count_correct (objective_is_correct answers) questions)
                 (List.length questions))
    (map (objective_entry answers) questions).

(** What a submission writes to the attempt and returns. *)
Record graded := {
  graded_score : str;
  graded_feedback : list dict
}.

(** [evaluation.get("score", "0/0")] and [evaluation.get("results", [])] *)
Definition graded_of (e : evaluation) : graded :=
  {| graded_score := match field_get (lit "score") e with
                     | Some (FScore s) => s
                     | _ => lit "0/0"
                     end;
     graded_feedback := match field_get (lit "results") e with
                        | Some (FResults l) => l
                        | _ => []
                        end |}.

Definition submit_student_quiz (rt : runtime) (calls : nat)
    (quiz_format : str) (questions : list dict) (answers : dict)
  : response graded * nat :=
  if is_objective quiz_format then
    (Ok (graded_of (grade_objective questions answers)), calls)
  else
    match evaluate_reply rt (generate_content rt calls) with
    | Some (sc, rs) => (Ok (graded_of (mk_evaluation sc rs)), S calls)
    | None => (HTTPException 500, S calls)
    end.

(** ** Grading an individual's attempt: [submit_individual_attempt]

    The handler first loads the attempt (404 when it is not the caller's),
    the questions of its quiz and the caller's API key; the model starts
    from the rows loaded. The percentage the response also carries is read
    back from the mark and is left out. *)

(** A row of the table [questions]; the [options] column goes into the
    prompt only and is left out. *)
Record Question := {
  q_id : Z;
  q_text : str;
  q_correct_answer : option str
}.

(** [Dict[str, str]] *)
Definition str_dict : Type := list (str * str).

Fixpoint str_dict_get (k : str) (d : str_dict) : option str :=
  match d with
  | [] => None
  | (k', v) :: d' => if str_eqb k' k then Some v else str_dict_get k d'
  end.

(** [d.get(k, '')] *)
Definition get_or_empty (k : str) (d : str_dict) : str :=
  match str_dict_get k d with Some v => v | None => [] end.

(** [x or ''] *)
Definition or_empty (x : option str) : str :=
  match x with Some s => s | None => [] end.

Definition py_opt_str (x : option str) : pyval :=
  match x with Some s => PStr s | None => PNone end.

(** The rows as sent to the helper. *)
Definition questions_data (questions : list Question) : list dict :=
  map (fun q => [(lit "id", PInt (q_id q));
                 (lit "text", PStr (q_text q));
                 (lit "correct_answer", py_opt_str (q_correct_answer q))])
      questions.

Definition answers_data (answers : str_dict) : dict :=
  map (fun kv => (fst kv, PStr (snd kv))) answers.

(** The test of the fallback loop on one question. *)
Definition fallback_is_correct (answers : str_dict) (q : Question) : bool :=
  let ua := get_or_empty (str_of_Z (q_id q)) answers in
  same_answer ua (or_empty (q_correct_answer q)).

(** The entry the fallback loop appends for one question. *)
Definition fallback_entry (answers : str_dict) (q : Question) : dict :=
  let ua := get_or_empty (str_of_Z (q_id q)) answers in
  let is_correct := fallback_is_correct answers q in
  [(lit "id", PInt (q_id q));
   (lit "correct", PBool is_correct);
   (lit "score", PFloat (score_of is_correct));
   (lit "user_answer", PStr ua);
   (lit "correct_answer", py_opt_str (q_correct_answer q));
   (lit "feedback",
    PStr (if is_correct then lit "Correct"
          else lit "Incorrect. The right answer was "
                 ++ py_str (py_opt_str (q_correct_answer q))))].

(** The fallback grading, by exact match on every question. *)
Definition fallback_grading (questions : list Question) (answers : str_dict)
  : evaluation :=
  mk_evaluation
    (count_score (count_correct (fallback_is_correct answers) questions)
                 (List.length questions))
    (map (fallback_entry answers) questions).

(** [next((q for q in questions if str(q.id) == q_id), None)] *)
Definition match_by_id (questions : list Question) (id : str) : option Question :=
  List.find (fun q => str_eqb (str_of_Z (q_id q)) id) questions.

(** The question an entry is correlated to: by id, then by index. *)
Definition q_match (questions : list Question) (idx : nat) (entry : dict)
  : option Question :=
  match match_by_id questions (py_str (get (lit "id") entry)) with
  | Some q => Some q
  | None =>
      if (idx <? List.length questions)%nat then nth_error questions idx
      else None
  end.

(** One step of the correlation loop on the entry at index [idx]. *)
Definition correlate_entry (questions : list Question) (answers : str_dict)
    (idx : nat) (entry : dict) : dict :=
  match q_match questions idx entry with
  | Some q =>
      let entry :=
        if dict_has (lit "user_answer") entry then entry
        else dict_set (lit "user_answer")
                      (PStr (get_or_empty (str_of_Z (q_id q)) answers)) entry in
      let entry :=
        if dict_has (lit "correct_answer") entry then entry
        else dict_set (lit "correct_answer")
                      (py_opt_str (q_correct_answer q)) entry in
      dict_set (lit "id") (PInt (q_id q)) entry
  | None => entry
  end.

(** [for idx, item in enumerate(final_feedback)], from the index [idx]. *)
Fixpoint correlate_from (questions : list Question) (answers : str_dict)
    (idx : nat) (feedback : list dict) : list dict :=
  match feedback with
  | [] => []
  | entry :: rest =>
      correlate_entry questions answers idx entry
        :: correlate_from questions answers (S idx) rest
  end.

Definition correlate (questions : list Question) (answers : str_dict)
    (feedback : list dict) : list dict :=
  correlate_from questions answers 0 feedback.

(** [api_key or "AI-dummy-key"] *)
Definition key_or_dummy (api_key : option str) : str :=
  match api_key with
  | Some (c :: k) => c :: k
  | _ => lit "AI-dummy-key"
  end.

Definition submit_individual_attempt (rt : runtime) (calls : nat)
    (questions : list Question) (api_key : option str) (answers : str_dict)
  : response graded * nat :=
  let '(ai_result, calls) :=
    evaluate_submission_ai rt calls (questions_data questions)
                           (answers_data answers) (key_or_dummy api_key) in
  let ai_result :=
    match graded_feedback (graded_of ai_result) with
    | [] => fallback_grading questions answers
    | _ => ai_result
    end in
  let final_feedback := graded_feedback (graded_of ai_result) in
  (Ok {| graded_score := graded_score (graded_of ai_result);
         graded_feedback := correlate questions answers final_feedback |},
   calls).

(** ** Generating a student's questions: [generate_student_quiz] *)

Record Student := {
  student_id : Z;
  student_classroom_id : Z
}.

Record SchoolQuiz := {
  quiz_id : Z;
  quiz_classroom_id : Z
}.

(** What a nullable column of the type [JSON] holds. The column is
    declared without [none_as_null], so a [None] that is written from
    Python is stored as the JSON value [null]; SQL NULL is what a row holds
    that was written without a value for the column. *)
Inductive json_column (A : Type) : Type :=
| SqlNull
| JsonNull
| JsonValue (v : A).

Arguments SqlNull {A}.
Arguments JsonNull {A}.
Arguments JsonValue {A} v.

(** The attribute as Python reads it: [None] for SQL NULL and for the JSON
    value [null]. *)
Definition column_value {A : Type} (c : json_column A) : option A :=
  match c with
  | SqlNull => None
  | JsonNull => None
  | JsonValue v => Some v
  end.

(** A row of the table [student_attempts]. *)
Record StudentAttempt := {
  attempt_id : Z;
  attempt_student_id : Z;
  attempt_school_quiz_id : Z;
  attempt_score : option str;
  attempt_answers : json_column dict;
  attempt_questions : list dict;
  attempt_feedback : option (list dict)
}.

(** The tables read and written, rows in storage order, and the number of
    calls of the LLM made so far. The document of the quiz and its
    creation parameters go into the prompt only and are left out. *)
Record world := {
  students : list Student;
  school_quizzes : list SchoolQuiz;
  student_attempts : list StudentAttempt;
  llm_calls : nat
}.

(** The body of a successful generation. *)
Record generated := {
  gen_message : str;
  gen_attempt_id : Z;
  gen_questions : list dict
}.

Definition find_student (w : world) (sid : Z) : option Student :=
  List.find (fun s => student_id s =? sid) (students w).

Definition find_quiz (w : world) (qid classroom : Z) : option SchoolQuiz :=
  List.find (fun q => (quiz_id q =? qid) && (quiz_classroom_id q =? classroom))
            (school_quizzes w).

(** The filter [StudentAttempt.answers == None] of the query: the SQL test
    [answers IS NULL], which the JSON value [null] does not pass. *)
Definition is_pending (a : StudentAttempt) : bool :=
  match attempt_answers a with
  | SqlNull => true
  | JsonNull => false
  | JsonValue _ => false
  end.

(** The filter of the query for an open attempt. *)
Definition open_attempt_of (sid qid : Z) (a : StudentAttempt) : bool :=
  (attempt_student_id a =? sid) && (attempt_school_quiz_id a =? qid)
  && is_pending a.

Definition existing_attempt (w : world) (sid qid : Z) : option StudentAttempt :=
  List.find (open_attempt_of sid qid) (student_attempts w).

(** The key the table gives to a new row. *)
Definition next_id (attempts : list StudentAttempt) : Z :=
  1 + fold_right (fun a acc => Z.max (attempt_id a) acc) 0 attempts.

Definition set_questions (a : StudentAttempt) (qs : list dict) : StudentAttempt :=
  {| attempt_id := attempt_id a;
     attempt_student_id := attempt_student_id a;
     attempt_school_quiz_id := attempt_school_quiz_id a;
     attempt_score := attempt_score a;
     attempt_answers := attempt_answers a;
     attempt_questions := qs;
     attempt_feedback := attempt_feedback a |}.

(** The commit of a changed attempt. *)
Definition update_attempt (a : StudentAttempt) (attempts : list StudentAttempt)
  : list StudentAttempt :=
  map (fun b => if attempt_id b =? attempt_id a then a else b) attempts.

Definition with_attempts (w : world) (attempts : list StudentAttempt) (calls : nat)
  : world :=
  {| students := students w;
     school_quizzes := school_quizzes w;
     student_attempts := attempts;
     llm_calls := calls |}.

(** The questions of the LLM's reply: [None] when the [try] block raises,
    [Some None] when the document has no key [questions]. *)
Definition generate_reply (rt : runtime) (reply : llm_reply)
  : option (option (list dict)) :=
  match reply with
  | LlmRaises => None
  | LlmText None => None
  | LlmText (Some raw_text) =>
      match loads rt (clean_json_text raw_text) with
      | None => None
      | Some quiz_json => Some (doc_questions quiz_json)
      end
  end.

Definition generate_student_quiz (rt : runtime) (w : world)
    (qid : Z) (sid : Z) : response generated * world :=
  match find_student w sid with
  | None => (HTTPException 404, w)
  | Some student =>
      match find_quiz w qid (student_classroom_id student) with
      | None => (HTTPException 404, w)
      | Some quiz =>
          let existing := existing_attempt w sid qid in
          let reuse :=
            match existing with
            | Some a => match attempt_questions a with
                        | [] => None
                        | _ :: _ => Some a
                        end
            | None => None
            end in
          match reuse with
          | Some a =>
              (Ok {| gen_message := lit "Quiz questions retrieved successfully";
                     gen_attempt_id := attempt_id a;
                     gen_questions := attempt_questions a |}, w)
          | None =>
              let calls := S (llm_calls w) in
              match generate_reply rt (generate_content rt (llm_calls w)) with
              | None =>
                  (HTTPException 500, with_attempts w (student_attempts w) calls)
              | Some None =>
                  (Unhandled, with_attempts w (student_attempts w) calls)
              | Some (Some qs) =>
                  let attempt :=
                    match existing with
                    | Some a => set_questions a qs
                    | None =>
                        {| attempt_id := next_id (student_attempts w);
                           attempt_student_id := sid;
                           attempt_school_quiz_id := quiz_id quiz;
                           attempt_score := None;
                           attempt_answers := JsonNull;
                           attempt_questions := qs;
                           attempt_feedback := None |}
                    end in
                  let attempts :=
                    match existing with
                    | Some _ => update_attempt attempt (student_attempts w)
                    | None => student_attempts w ++ [attempt]
                    end in
                  (Ok {| gen_message := lit "Quiz generated successfully";
                         gen_attempt_id := attempt_id attempt;
                         gen_questions := attempt_questions attempt |},
                   with_attempts w attempts calls)
              end
          end
      end
  end.

(** ** Model names: [get_gemini_model_name], [get_actual_model_id] *)

(** The pattern of [s.replace(old, new)]: the text [old] itself. *)
Definition m_literal (old new : str) : matcher := fun s =>
  if startswith old s then Some (List.length old, new) else None.

(** [s.replace(old, new)] for a non-empty [old] *)
Definition replace (old new s : str) : str := re_sub (m_literal old new) s.

Definition get_gemini_model_name (model_name : str) : str :=
  replace (lit "models/") [] model_name.

(** The table [model_mapping], in its order. *)
Definition model_mapping : list (str * str) :=
  [(lit "xiaomi mimo v2 flash", lit "xiaomi/mimo-v2-flash:free");
   (lit "xiaomi/mimo-v2-flash", lit "xiaomi/mimo-v2-flash:free");
   (lit "qwen/qwen-2.5-7b-instruct", lit "qwen/qwen-2.5-7b-instruct:free");
   (lit "meta-llama/llama-3.2-3b-instruct",
    lit "meta-llama/llama-3.2-3b-instruct:free")].

Definition default_model : str := lit "xiaomi/mimo-v2-flash:free".

(** The loop [for key, value in model_mapping.items()]. *)
Fixpoint lookup_model (cleaned : str) (mapping : list (str * str)) : str :=
  match mapping with
  | [] => default_model
  | (key, value) :: rest =>
      if contains key cleaned then value else lookup_model cleaned rest
  end.

Definition get_actual_model_id (model_name : str) : str :=
  let cleaned := strip (lower model_name) in
  let cleaned := strip (piece 0 (split (lit "(") cleaned)) in
  let cleaned :=
    if contains (lit "recommended") (lower model_name)
    then strip (piece 0 (split (lit "-") cleaned))
    else cleaned in
  if contains (lit "/") model_name && contains (lit ":") model_name
  then model_name
  else lookup_model cleaned model_mapping.

(** ** Generating questions: [generate_quiz_questions_ai]

    The function parses with [json.loads(..., strict=False)], which is
    another parser than the runtime's: it is an argument here. The prompt
    and the key go to the LLM only. *)

Definition generate_quiz_questions_ai (rt : runtime)
    (loads_lenient : str -> option document) (calls : nat)
    (prompt api_key : str) : list dict * nat :=
  (match generate_content rt calls with
   | LlmRaises => []
   | LlmText None => []
   | LlmText (Some content) =>
       match clean_json_text content with
       | [] => []
       | cleaned_json =>
           match loads_lenient cleaned_json with
           | None => []
           | Some data =>
               match doc_questions data with
               | Some questions => questions
               | None => []
               end
           end
       end
   end,
   S calls).

(** ** The history of an attempt: [get_attempt_details]

    The handler of [/api/history/{attempt_id}]: it loads the attempt (404
    when it is not the caller's) and the questions of its quiz in the order
    of their ids; the model starts from the rows loaded, the feedback being
    a list of objects or [None]. *)

(** [isinstance(v, int)], with the value; a [bool] is an [int]. *)
Definition as_int (v : pyval) : option Z :=
  match v with
  | PInt z => Some z
  | PBool b => Some (if b then 1 else 0)
  | _ => None
  end.

(** [{i+1: q.text for i, q in enumerate(questions)}], from the index [i]. *)
Fixpoint q_map_from (i : Z) (questions : list Question) : list (Z * str) :=
  match questions with
  | [] => []
  | q :: rest => (i + 1, q_text q) :: q_map_from (i + 1) rest
  end.

Definition q_map (questions : list Question) : list (Z * str) :=
  q_map_from 0 questions.

Fixpoint q_map_get (k : Z) (m : list (Z * str)) : option str :=
  match m with
  | [] => None
  | (k', t) :: rest => if k' =? k then Some t else q_map_get k rest
  end.

Definition text_unavailable : str := lit "Question text unavailable".

Definition default_question : Question :=
  {| q_id := 0; q_text := []; q_correct_answer := None |}.

(** The text the loop gives to one feedback item. *)
Definition question_text (questions : list Question) (item : dict) : str :=
  match as_int (get (lit "id") item) with
  | Some qid =>
      match q_map_get qid (q_map questions) with
      | Some t => t
      | None =>
          match questions with
          | _ :: _ =>
              if (0 <=? qid - 1) && (qid - 1 <? Z.of_nat (List.length questions))
              then q_text (nth (Z.to_nat (qid - 1)) questions default_question)
              else text_unavailable
          | [] => text_unavailable
          end
      end
  | None => text_unavailable
  end.

(** The feedback of the response. *)
Definition get_attempt_details (questions : list Question)
    (feedback : option (list dict)) : list dict :=
  match feedback with
  | Some (item :: rest) =>
      map (fun it => dict_set (lit "question_text")
                              (PStr (question_text questions it)) it)
          (item :: rest)
  | _ => []
  end.

(** ** A student's average: [calculate_student_average] *)

Definition fdiv (x y : float) : float := SFdiv prec emax x y.
Definition fmul (x y : float) : float := SFmul prec emax x y.
Definition f100 : float := Eval vm_compute in float_of_ratio false 100 1.

(** A Python number that is the [int] zero or a [float]. *)
Inductive number :=
| IntegerZero
| Float (f : float).

(** What one attempt adds to the total: [None] when the attempt is passed
    over (no score, not two parts, a part that is no number, a denominator
    that is not positive). *)
Definition attempt_percentage (rt : runtime) (a : StudentAttempt) : option float :=
  match attempt_score a with
  | None => None
  | Some [] => None
  | Some score =>
      match split (lit "/") score with
      | [p0; p1] =>
          match float_of_str rt p0 with
          | None => None
          | Some num =>
              match float_of_str rt p1 with
              | None => None
              | Some den =>
                  if SFltb fzero den then Some (fmul (fdiv num den) f100)
                  else None
              end
          end
      | _ => None
      end
  end.

(** The loop over the attempts: the total and the count. *)
Fixpoint average_loop (rt : runtime) (t : total) (count : nat)
    (attempts : list StudentAttempt) : total * nat :=
  match attempts with
  | [] => (t, count)
  | a :: rest =>
      match attempt_percentage rt a with
      | Some x => average_loop rt (Sum (total_add t x)) (S count) rest
      | None => average_loop rt t count rest
      end
  end.

(** [float(n)] of a count. *)
Definition float_of_count (n : nat) : float :=
  binary_normalize prec emax (Z.of_nat n) 0 false.

Definition calculate_student_average (rt : runtime)
    (attempts : list StudentAttempt) : number :=
  match attempts with
  | [] => IntegerZero
  | _ =>
      match average_loop rt IntZero 0 attempts with
      | (Sum f, S n) => Float (round_float (fdiv f (float_of_count (S n))) 1)
      | (IntZero, S n) => Float (round_float (fdiv fzero (float_of_count (S n))) 1)
      | (_, O) => IntegerZero
      end
  end.

(** ** Student ids: [generate_student_id], [bulk_import_students] *)

Definition dash : ascii := "-"%char.

(** The value of a decimal digit. *)
Definition digit_value (c : ascii) : option Z :=
  if between 48 57 (code c) then Some (Z.of_nat (code c - 48)) else None.

(** The digits of [int(s)], with single underscores between digits; [prev]
    tells that the character before was a digit. *)
Fixpoint int_digits (acc : Z) (prev : bool) (s : str) : option Z :=
  match s with
  | [] => if prev then Some acc else None
  | c :: r =>
      if chr_eqb c "_"%char then
        if prev then int_digits acc false r else None
      else
        match digit_value c with
        | Some d => int_digits (10 * acc + d) true r
        | None => None
        end
  end.

(** The white space [int] skips at both ends: the ASCII one of C, and what
    [str.isspace] accepts above ASCII. *)
Definition is_int_space (c : ascii) : bool :=
  let n := code c in
  (between 9 13 n || (n =? 32) || (n =? 133) || (n =? 160))%nat.

Fixpoint int_lstrip (s : str) : str :=
  match s with
  | c :: s' => if is_int_space c then int_lstrip s' else s
  | [] => []
  end.

Definition int_strip (s : str) : str := rev (int_lstrip (rev (int_lstrip s))).

(** [int(s)] on a string; [None] is [ValueError]. *)
Definition int_of_str (s : str) : option Z :=
  match int_strip s with
  | c :: r =>
      if chr_eqb c "+"%char then int_digits 0 false r
      else if chr_eqb c dash then option_map Z.opp (int_digits 0 false r)
      else int_digits 0 false (c :: r)
  | [] => None
  end.

(** [f"{z:0{width}d}"]: zeros between the sign and the digits, up to the
    width. *)
Definition pad_d (width : nat) (z : Z) : str :=
  let digits := str_of_Z (Z.abs z) in
  if z <? 0
  then dash :: repeat "0"%char (width - 1 - List.length digits) ++ digits
  else repeat "0"%char (width - List.length digits) ++ digits.

(** [generate_student_id(school_id, student_count)], in the year [year]. *)
Definition generate_student_id (year school_id student_count : Z) : str :=
  lit "STU-" ++ str_of_Z year ++ dash :: pad_d 3 school_id
    ++ dash :: pad_d 5 student_count.

(** [student_id.split('-')[-1]] *)
Definition last_part (student_id : str) : str :=
  last (split [dash] student_id) [].

(** The loop that finds the greatest numeric suffix of the ids found. *)
Fixpoint max_suffix_from (max_suffix : Z) (existing : list str) : Z :=
  match existing with
  | [] => max_suffix
  | student_id :: rest =>
      match int_of_str (last_part student_id) with
      | Some suffix => max_suffix_from (Z.max max_suffix suffix) rest
      | None => max_suffix_from max_suffix rest
      end
  end.

(** The loop over the students to import, from the index [idx]: each with
    its new id. [generate_student_id] reads the clock at every call: [clock
    idx] is the year it finds at the call of index [idx]. The passwords are
    random and are left out. *)
Fixpoint assign_ids {A : Type} (clock : nat -> Z) (school_id max_suffix : Z)
    (idx : nat) (students : list A) : list (A * str) :=
  match students with
  | [] => []
  | student_data :: rest =>
      (student_data,
       generate_student_id (clock idx) school_id
         (max_suffix + Z.of_nat idx + 1))
        :: assign_ids clock school_id max_suffix (S idx) rest
  end.

(** The students [bulk_import_students] creates in a classroom that exists,
    given the ids which the query for the ids of the school and the year
    returned. *)
Definition bulk_import_students {A : Type} (clock : nat -> Z) (school_id : Z)
    (existing : list str) (students : list A) : list (A * str) :=
  assign_ids clock school_id (max_suffix_from 0 existing) 0 students.

(** ** The lists of quizzes: [get_student_quizzes],
    [get_student_attempts_school] *)

(** [student.student_attempts]: the attempts of a student. *)
Definition attempts_of (w : world) (sid : Z) : list StudentAttempt :=
  filter (fun a => attempt_student_id a =? sid) (student_attempts w).

(** The quizzes of a classroom. *)
Definition quizzes_of (w : world) (classroom : Z) : list SchoolQuiz :=
  filter (fun q => quiz_classroom_id q =? classroom) (school_quizzes w).

(** A dict from the ids of quizzes to scores, in insertion order. *)
Definition score_map := list (Z * str).

Fixpoint score_map_set (k : Z) (v : str) (m : score_map) : score_map :=
  match m with
  | [] => [(k, v)]
  | (k', v') :: rest =>
      if k' =? k then (k', v) :: rest else (k', v') :: score_map_set k v rest
  end.

Fixpoint score_map_get (k : Z) (m : score_map) : option str :=
  match m with
  | [] => None
  | (k', v) :: rest => if k' =? k then Some v else score_map_get k rest
  end.

(** [{a.school_quiz_id: a.score for a in attempts if a.score}], from the
    dict [m]. *)
Fixpoint attempts_map_from (m : score_map) (attempts : list StudentAttempt)
  : score_map :=
  match attempts with
  | [] => m
  | a :: rest =>
      match attempt_score a with
      | Some (c :: s) =>
          attempts_map_from
            (score_map_set (attempt_school_quiz_id a) (c :: s) m) rest
      | _ => attempts_map_from m rest
      end
  end.

(** An entry of the student's list of quizzes; the fields of the quiz that
    the model of the table leaves out are left out here. *)
Record quiz_entry := {
  entry_id : Z;
  entry_status : str;
  entry_attempted : bool;
  entry_score : option str
}.

Definition quiz_entry_of (attempts_map : score_map) (q : SchoolQuiz)
  : quiz_entry :=
  let attempted :=
    match score_map_get (quiz_id q) attempts_map with
    | Some _ => true
    | None => false
    end in
  {| entry_id := quiz_id q;
     entry_status := if attempted then lit "completed" else lit "active";
     entry_attempted := attempted;
     entry_score := score_map_get (quiz_id q) attempts_map |}.

(** [get_student_quizzes]; [newest_first] is the order of the query, by
    the time of creation, which the model of the table leaves out. *)
Definition get_student_quizzes
    (newest_first : list SchoolQuiz -> list SchoolQuiz) (w : world) (sid : Z)
  : response (list quiz_entry) :=
  match find_student w sid with
  | None => HTTPException 404
  | Some student =>
      let quizzes := newest_first (quizzes_of w (student_classroom_id student)) in
      let attempts_map := attempts_map_from [] (attempts_of w sid) in
      Ok (map (quiz_entry_of attempts_map) quizzes)
  end.

(** The field [undone_quizzes] of the response of
    [get_student_attempts_school]; [of_school] is the test of the school of
    the student, a column the model of the table leaves out. *)
Definition get_student_attempts_school (of_school : Student -> bool)
    (w : world) (sid : Z) : response (list SchoolQuiz) :=
  match List.find (fun s => (student_id s =? sid) && of_school s)
                  (students w) with
  | None => HTTPException 404
  | Some student =>
      let attempts := attempts_of w sid in
      let classroom_quizzes := quizzes_of w (student_classroom_id student) in
      let attempted_quiz_ids := map attempt_school_quiz_id attempts in
      Ok (filter (fun q => negb (existsb (Z.eqb (quiz_id q))
                                         attempted_quiz_ids))
                 classroom_quizzes)
  end.

(** ** Vocabulary of the statements *)

(** *** The sanitizer *)

(** What follows the run a greedy [\s*] matches. *)
Definition after_spaces (t : str) : str := skipn (spaces t) t.

(** Some comma of [s] is followed, after spaces only, by a comma that is
    followed, after spaces only, by a closing bracket or brace. *)
Fixpoint stacked_commas (s : str) : bool :=
  match s with
  | [] => false
  | c :: t =>
      (chr_eqb c comma
       && match after_spaces t with
          | b :: r =>
              chr_eqb b comma
              && match after_spaces r with
                 | d :: _ => is_closer d
                 | [] => false
                 end
          | [] => false
          end)
      || stacked_commas t
  end.

(** The trailing-comma pattern matches somewhere in [s]. *)
Fixpoint has_trailing_comma (s : str) : bool :=
  match s with
  | [] => false
  | _ :: t =>
      match m_trailing_comma s with
      | Some _ => true
      | None => has_trailing_comma t
      end
  end.

(** A double-quoted JSON string. *)
Definition dquote : ascii := ascii_of_nat 34.
Definition quoted (s : string) : str := dquote :: lit s ++ [dquote].

(** *** The display score *)

(** The entry [it] of a result sequence carries the numeric score [s]. *)
Definition scored (rt : runtime) (it : item) (s : float) : Prop :=
  exists r v, it = Obj r
              /\ dict_get (lit "score") r = Some v
              /\ match v with PInt _ | PFloat _ => True | _ => False end
              /\ py_float rt v = Some s.

(** The float sum of a score sequence, from the left. *)
Definition float_sum (scores : list float) : float := fold_left fadd scores fzero.

(** A sum written as an integer when it has no fractional part, and
    rounded to two decimals otherwise. *)
Definition render_sum (f : float) : str :=
  if is_integer f then str_of_Z (int_of_float f)
  else repr_float (round_float f 2).

(** [obtained/total] *)
Definition obtained_of_total (scores : list float) (n : nat) : str :=
  render_sum (float_sum scores) ++ "/"%char :: str_of_Z (Z.of_nat n).

(** The display score of a result sequence, when the scoring raises
    nothing. *)
Definition display_of (rt : runtime) (items : list item) : option str :=
  option_map fst (score_results rt (RArray items)).

(** [total_obtained] after the scores were added, one by one. *)
Fixpoint fold_total (t : total) (scores : list float) : total :=
  match scores with
  | [] => t
  | s :: rest => fold_total (Sum (total_add t s)) rest
  end.

(** A grade entry with an id and a score. *)
Definition entry_with (id : Z) (score : float) : item :=
  Obj [(lit "id", PInt id); (lit "score", PFloat score)].

(** The float written [0.33]. *)
Definition f033 : float := float_of_ratio false 33 100.

(** *** Grading *)

(** The ids of a feedback list. *)
Definition ids_of (feedback : list dict) : list pyval :=
  map (get (lit "id")) feedback.

(** The result sequence of an evaluation. *)
Definition results_of (e : evaluation) : list dict :=
  graded_feedback (graded_of e).

(** A stored question with an id and a correct answer. *)
Definition stored (id : Z) (answer : string) : Question :=
  {| q_id := id; q_text := lit "?"; q_correct_answer := Some (lit answer) |}.

(** The stored question [q] has the id of the entry, by the comparison of
    the lookup: [str(q.id) == str(item.get("id"))]. *)
Definition same_id (q : Question) (entry : dict) : Prop :=
  str_of_Z (q_id q) = py_str (get (lit "id") entry).

(** A runtime whose LLM always gives the same reply and whose parser always
    gives the same document. *)
Definition constant_runtime (reply : llm_reply) (doc : option document)
    (v : bool) : runtime :=
  {| generate_content := fun _ => reply;
     json_loads := fun _ => doc;
     float_of_str := fun _ => None;
     int_has_is_integer := v |}.

Definition results_document (items : list item) : document :=
  {| doc_results := RArray items; doc_questions := None |}.

Definition questions_document (qs : list dict) : document :=
  {| doc_results := RMissing; doc_questions := Some qs |}.

(** *** Attempts *)

(** The number of attempts of a student on a quiz that the query for an
    open attempt matches. *)
Definition count_pending (w : world) (sid qid : Z) : nat :=
  List.length (filter (open_attempt_of sid qid) (student_attempts w)).

(** The keys of the table of attempts differ. *)
Definition unique_ids (w : world) : Prop :=
  NoDup (map attempt_id (student_attempts w)).

(** The body of the response that hands out the questions of [a] again. *)
Definition retrieved (a : StudentAttempt) : generated :=
  {| gen_message := lit "Quiz questions retrieved successfully";
     gen_attempt_id := attempt_id a;
     gen_questions := attempt_questions a |}.

Definition sample_question : dict :=
  [(lit "id", PInt 1); (lit "text", PStr (lit "2 + 2 = ?"));
   (lit "correct_answer", PStr (lit "4"))].

(** An attempt that holds a question and whose answers are SQL NULL. *)
Definition sample_attempt : StudentAttempt :=
  {| attempt_id := 1;
     attempt_student_id := 4;
     attempt_school_quiz_id := 9;
     attempt_score := None;
     attempt_answers := SqlNull;
     attempt_questions := [sample_question];
     attempt_feedback := None |}.

(** A world with one student, one quiz of the student's classroom, and
    the attempts given. *)
Definition world_with (attempts : list StudentAttempt) : world :=
  {| students := [{| student_id := 4; student_classroom_id := 2 |}];
     school_quizzes := [{| quiz_id := 9; quiz_classroom_id := 2 |}];
     student_attempts := attempts;
     llm_calls := 0 |}.

Definition sample_world : world := world_with [sample_attempt].

(** No answers are recorded: the attribute reads [None]. *)
Definition unanswered (a : StudentAttempt) : bool :=
  match column_value (attempt_answers a) with
  | None => true
  | Some _ => false
  end.

(** The number of attempts of a student on a quiz without answers. *)
Definition count_unanswered (w : world) (sid qid : Z) : nat :=
  List.length
    (filter (fun a => (attempt_student_id a =? sid)
                      && (attempt_school_quiz_id a =? qid) && unanswered a)
            (student_attempts w)).

(** An LLM that words its one question anew at every call: the reply to
    the call number [n] is the text [{n}], and a text parses to a document
    with one question of that text. *)
Definition rewording_runtime : runtime :=
  {| generate_content := fun n =>
       LlmText (Some (lbrace :: str_of_Z (Z.of_nat n) ++ [rbrace]));
     json_loads := fun text =>
       Some (questions_document [[(lit "id", PInt 1); (lit "text", PStr text)]]);
     float_of_str := fun _ => None;
     int_has_is_integer := true |}.

(** ** Vocabulary of the further statements *)

Definition backtick : ascii := "`"%char.

(** The repairs of the sanitizer, one after the other. *)
Definition repairs (text : str) : str :=
  fix_literals (fix_comments (fix_trailing_commas text)).

(** The text of the question at the 1-based position an item's id names,
    when the id is an integer within the questions. *)
Definition text_at (questions : list Question) (item : dict) : str :=
  match as_int (get (lit "id") item) with
  | Some k =>
      if (1 <=? k) && (k <=? Z.of_nat (List.length questions))
      then q_text (nth (Z.to_nat (k - 1)) questions default_question)
      else text_unavailable
  | None => text_unavailable
  end.

(** The attempt adds to the average. *)
Definition usable (rt : runtime) (a : StudentAttempt) : bool :=
  match attempt_percentage rt a with Some _ => true | None => false end.

(** An attempt that was never submitted. *)
Definition unsubmitted : StudentAttempt :=
  {| attempt_id := 2;
     attempt_student_id := 4;
     attempt_school_quiz_id := 9;
     attempt_score := None;
     attempt_answers := JsonNull;
     attempt_questions := [];
     attempt_feedback := None |}.

(** The attempt a generation adds for a student and a quiz. *)
Definition new_attempt (w : world) (sid qid : Z) (qs : list dict)
  : StudentAttempt :=
  {| attempt_id := next_id (student_attempts w);
     attempt_student_id := sid;
     attempt_school_quiz_id := qid;
     attempt_score := None;
     attempt_answers := JsonNull;
     attempt_questions := qs;
     attempt_feedback := None |}.

(** The response is an error. *)
Definition is_error {A : Type} (r : response A) : bool :=
  match r with Ok _ => false | _ => true end.

(** An attempt without questions whose answers are SQL NULL, and a
    submitted attempt. *)
Definition blank_attempt : StudentAttempt :=
  {| attempt_id := 1;
     attempt_student_id := 4;
     attempt_school_quiz_id := 9;
     attempt_score := None;
     attempt_answers := SqlNull;
     attempt_questions := [];
     attempt_feedback := None |}.

Definition submitted_attempt : StudentAttempt :=
  {| attempt_id := 7;
     attempt_student_id := 4;
     attempt_school_quiz_id := 9;
     attempt_score := Some (lit "1/1");
     attempt_answers := JsonValue [(lit "1", PStr (lit "4"))];
     attempt_questions := [sample_question];
     attempt_feedback := Some [] |}.

(** A grade entry whose [correct] field is what its score says: the score
    is a value that [float] reads as [s], be it a number, a bool or a
    string, and [correct] is [s >= 0.5]. *)
Definition entry_consistent (rt : runtime) (e : dict) : Prop :=
  exists v s,
    dict_get (lit "score") e = Some v
    /\ py_float rt v = Some s
    /\ dict_get (lit "correct") e = Some (PBool (at_least_half s)).

(** The entry is marked correct. *)
Definition marked_correct (e : dict) : bool :=
  match dict_get (lit "correct") e with
  | Some (PBool true) => true
  | _ => false
  end.

(** The score of the scored entry [e'] of the result entry [it]: the value
    the grader gave, as it was given, and for an entry without a score the
    float 1.0 or 0.0 by the truth of its field [correct]. *)
Definition score_kept (it : item) (e' : dict) : Prop :=
  exists e, it = Obj e
            /\ match dict_get (lit "score") e with
               | Some v => dict_get (lit "score") e' = Some v
               | None =>
                   dict_get (lit "score") e'
                   = Some (PFloat (score_of (truthy (get (lit "correct") e))))
               end.

(** A grade entry of an exact-match grading: its score is the float 1.0
    and [correct] is true, or its score is the float 0.0 and [correct] is
    false. *)
Definition float_scored (e : dict) : Prop :=
  exists b, dict_get (lit "score") e = Some (PFloat (score_of b))
            /\ dict_get (lit "correct") e = Some (PBool b).

(** The scored entry [e'] of the result entry [it]: the same object but for
    the fields [score] and [correct]. *)
Definition scored_from (it : item) (e' : dict) : Prop :=
  exists e, it = Obj e
            /\ forall k, k <> lit "score" -> k <> lit "correct" ->
                         dict_get k e' = dict_get k e.

(** The value of the digits [d] after the digits of value [acc]. *)
Fixpoint uint_value (d : Decimal.uint) (acc : Z) : Z :=
  match d with
  | Decimal.Nil => acc
  | Decimal.D0 l => uint_value l (10 * acc)
  | Decimal.D1 l => uint_value l (10 * acc + 1)
  | Decimal.D2 l => uint_value l (10 * acc + 2)
  | Decimal.D3 l => uint_value l (10 * acc + 3)
  | Decimal.D4 l => uint_value l (10 * acc + 4)
  | Decimal.D5 l => uint_value l (10 * acc + 5)
  | Decimal.D6 l => uint_value l (10 * acc + 6)
  | Decimal.D7 l => uint_value l (10 * acc + 7)
  | Decimal.D8 l => uint_value l (10 * acc + 8)
  | Decimal.D9 l => uint_value l (10 * acc + 9)
  end.

(** A decimal digit. *)
Definition is_digit (c : ascii) : Prop := digit_value c <> None.

(** The attempt of a student on a quiz that a response names. *)
Definition names_attempt (w : world) (sid qid : Z) (g : generated) : Prop :=
  exists a, In a (student_attempts w)
            /\ attempt_id a = gen_attempt_id g
            /\ attempt_student_id a = sid
            /\ attempt_school_quiz_id a = qid
            /\ attempt_questions a = gen_questions g.

(** [float(s)] for the strings [int] reads: the float of the integer. *)
Definition decimal_runtime : runtime :=
  {| generate_content := fun _ => LlmRaises;
     json_loads := fun _ => None;
     float_of_str := fun s =>
       option_map (fun z => binary_normalize prec emax z 0 false)
                  (int_of_str s);
     int_has_is_integer := true |}.

(** An attempt with the score of the local grading of one question. *)
Definition objective_attempt : StudentAttempt :=
  {| attempt_id := 3;
     attempt_student_id := 4;
     attempt_school_quiz_id := 9;
     attempt_score :=
       Some (graded_score
               (graded_of (grade_objective [sample_question]
                                           [(lit "1", PStr (lit "4"))])));
     attempt_answers := JsonValue [(lit "1", PStr (lit "4"))];
     attempt_questions := [sample_question];
     attempt_feedback := Some [] |}.

(** What the usable attempts add to the total, in order. *)
Fixpoint percentages (rt : runtime) (attempts : list StudentAttempt)
  : list float :=
  match attempts with
  | [] => []
  | a :: rest =>
      match attempt_percentage rt a with
      | Some x => x :: percentages rt rest
      | None => percentages rt rest
      end
  end.

(** A submitted attempt with the score given. *)
Definition graded_attempt (score : string) : StudentAttempt :=
  {| attempt_id := 5;
     attempt_student_id := 4;
     attempt_school_quiz_id := 9;
     attempt_score := Some (lit score);
     attempt_answers := JsonValue [];
     attempt_questions := [sample_question];
     attempt_feedback := Some [] |}.

(** * Properties *)

(** ** Strings *)

Lemma chr_eqb_eq (a b : ascii) : chr_eqb a b = true <-> a = b.
Proof. apply Ascii.eqb_eq. Qed.

Lemma chr_eqb_refl (a : ascii) : chr_eqb a a = true.
Proof. apply Ascii.eqb_refl. Qed.

Lemma str_eqb_eq (a b : str) : str_eqb a b = true <-> a = b.
Proof.
  revert b; induction a as [|x a IH]; intros [|y b]; simpl; split;
    try discriminate; try reflexivity.
  - intros H. apply andb_true_iff in H as [H1 H2].
    apply chr_eqb_eq in H1. apply IH in H2. congruence.
  - intros H. injection H as -> ->.
    rewrite chr_eqb_refl. simpl. now apply IH.
Qed.

Lemma str_eqb_refl (a : str) : str_eqb a a = true.
Proof. now apply str_eqb_eq. Qed.

Lemma lstrip_incl (s : str) : incl (lstrip s) s.
Proof.
  induction s as [|c s IH]; simpl.
  - apply incl_refl.
  - destruct (is_space c).
    + now apply incl_tl.
    + apply incl_refl.
Qed.

Lemma rstrip_incl (s : str) : incl (rstrip s) s.
Proof.
  unfold rstrip. intros c H.
  apply in_rev in H. apply lstrip_incl in H. now apply in_rev.
Qed.

Lemma strip_incl (s : str) : incl (strip s) s.
Proof.
  unfold strip. eapply incl_tran; [apply rstrip_incl | apply lstrip_incl].
Qed.

Lemma skipn_incl {A : Type} (n : nat) (l : list A) : incl (skipn n l) l.
Proof.
  revert l; induction n as [|n IH]; intros [|x l]; simpl;
    try apply incl_refl.
  apply incl_tl, IH.
Qed.

(** The characters of a stripped or sliced text are characters of the
    text. *)
Create HintDb substr.
#[local] Hint Resolve lstrip_incl rstrip_incl strip_incl skipn_incl incl_refl
  : substr.

Lemma incl_skipn_skipn {A : Type} (n k : nat) (l g : list A) :
  incl g (skipn n (skipn k l)) -> incl g l.
Proof. intros H. eauto using incl_tran with substr. Qed.

Lemma incl_skipn {A : Type} (n : nat) (l g : list A) :
  incl g (skipn n l) -> incl g l.
Proof. intros H. eauto using incl_tran with substr. Qed.

Lemma split_aux_incl (sep : str) (s : str) :
  forall skip cur,
    Forall (fun p => incl p (rev cur ++ s)) (split_aux sep skip cur s).
Proof.
  induction s as [|c s IH]; intros skip cur; simpl.
  - constructor; [|constructor]. rewrite app_nil_r. apply incl_refl.
  - assert (Hstep : forall l cur',
               incl (rev cur' ++ s) (rev cur ++ c :: s) ->
               Forall (fun p => incl p (rev cur' ++ s)) l ->
               Forall (fun p => incl p (rev cur ++ c :: s)) l).
    { intros l cur' Hi Hl. eapply Forall_impl; [|exact Hl].
      intros p Hp. exact (incl_tran Hp Hi). }
    assert (Hsame : incl (rev cur ++ s) (rev cur ++ c :: s)).
    { apply incl_app; [apply incl_appl, incl_refl|apply incl_appr, incl_tl, incl_refl]. }
    destruct skip as [|k].
    + destruct (startswith sep (c :: s)).
      * constructor.
        -- apply incl_appl, incl_refl.
        -- apply (Hstep _ []); [|apply IH].
           simpl. apply incl_appr, incl_tl, incl_refl.
      * apply (Hstep _ (c :: cur)); [|apply IH].
        simpl. rewrite <- app_assoc. simpl. apply incl_refl.
    + apply (Hstep _ cur); [exact Hsame|apply IH].
Qed.

Lemma piece_split_incl (sep s : str) (i : nat) : incl (piece i (split sep s)) s.
Proof.
  unfold piece, split.
  pose proof (split_aux_incl sep s 0 []) as H. simpl in H.
  destruct (nth_in_or_default i (split_aux sep 0 [] s) []) as [Hin|Hd].
  - rewrite Forall_forall in H. now apply H.
  - rewrite Hd. intros c [].
Qed.

Lemma lazy_group_eq (acc t : str) :
  lazy_group acc t =
  if startswith fence (lstrip t) then Some (rev acc)
  else match t with
       | [] => None
       | c :: t' => lazy_group (c :: acc) t'
       end.
Proof. destruct t; reflexivity. Qed.

Lemma lazy_group_incl (t : str) :
  forall acc g, lazy_group acc t = Some g -> incl g (rev acc ++ t).
Proof.
  induction t as [|c t IH]; intros acc g; rewrite lazy_group_eq.
  - destruct (startswith fence (lstrip [])); [|discriminate].
    intros H; injection H as <-. apply incl_appl, incl_refl.
  - destruct (startswith fence (lstrip (c :: t))).
    + intros H; injection H as <-. apply incl_appl, incl_refl.
    + intros H. apply IH in H. simpl in H.
      rewrite <- app_assoc in H. exact H.
Qed.

Lemma fence_tail_incl (t g : str) : fence_tail t = Some g -> incl g t.
Proof.
  unfold fence_tail. intros H. apply lazy_group_incl in H. simpl in H.
  eapply incl_tran; [exact H | apply lstrip_incl].
Qed.

Lemma fence_at_incl (s g : str) : fence_at s = Some g -> incl g s.
Proof.
  unfold fence_at. destruct (startswith fence s); [|discriminate].
  destruct (startswith (lit "json") (skipn 3 s)).
  - destruct (fence_tail (skipn 4 (skipn 3 s))) as [g'|] eqn:E.
    + intros H; injection H as <-.
      eauto using fence_tail_incl, incl_skipn_skipn.
    + eauto using fence_tail_incl, incl_skipn.
  - eauto using fence_tail_incl, incl_skipn.
Qed.

Lemma first_block_eq (s : str) :
  first_block s =
  match fence_at s with
  | Some g => Some g
  | None => match s with
            | [] => None
            | _ :: s' => first_block s'
            end
  end.
Proof. destruct s; reflexivity. Qed.

Lemma first_block_incl (s g : str) : first_block s = Some g -> incl g s.
Proof.
  induction s as [|c s IH]; rewrite first_block_eq.
  - destruct (fence_at []) eqn:E; [|discriminate].
    intros H; injection H as <-. now apply fence_at_incl.
  - destruct (fence_at (c :: s)) eqn:E.
    + intros H; injection H as <-. now apply fence_at_incl.
    + intros H. apply incl_tl. now apply IH.
Qed.

Lemma unfence_incl (text : str) : incl (unfence text) text.
Proof.
  unfold unfence.
  destruct (contains fence_json text).
  - eapply incl_tran; apply piece_split_incl.
  - destruct (contains fence text); [|apply incl_refl].
    destruct (first_block text) eqn:E.
    + now apply first_block_incl.
    + eapply incl_tran; apply piece_split_incl.
Qed.

Lemma find_chr_absent (c : ascii) (s : str) : ~ In c s -> find [c] s = None.
Proof.
  induction s as [|x s IH]; intros H; simpl.
  - reflexivity.
  - destruct (chr_eqb c x) eqn:E.
    + apply chr_eqb_eq in E. subst. exfalso. apply H. now left.
    + simpl. rewrite IH; [reflexivity|]. intros Hin. apply H. now right.
Qed.

(** ** The sanitizer *)

(** C4. A text without an opening brace is sanitized to the empty string,
    whatever markdown fences, closing braces or literals it holds. *)
Theorem clean_json_text_no_brace (text : str) :
  ~ In lbrace text -> clean_json_text text = [].
Proof.
  intros H. unfold clean_json_text.
  rewrite find_chr_absent; [reflexivity|].
  intros Hin. apply H.
  apply strip_incl, unfence_incl, strip_incl in Hin. exact Hin.
Qed.

Lemma clean_json_text_no_brace_witness :
  ~ In lbrace (lit "```json [1, 2,] ``` Sorry, no quiz: None }")
  /\ clean_json_text (lit "```json [1, 2,] ``` Sorry, no quiz: None }") = [].
Proof.
  assert (H : ~ In lbrace (lit "```json [1, 2,] ``` Sorry, no quiz: None }")).
  { intros H. vm_compute in H.
    repeat (destruct H as [H|H]; [discriminate H|]). exact H. }
  split; [exact H | exact (clean_json_text_no_brace _ H)].
Defined.

(** The sanitizer on a fenced reply, on a reply cut short, and on a reply
    with a comment. *)
Example clean_json_text_fenced :
  clean_json_text
    (lit "Here is the quiz: ```json { 'a': [1, 2, ], 'ok': True, 'b': None, } ``` Enjoy!")
  = lit "{ 'a': [1, 2], 'ok': true, 'b': null}".
Proof. reflexivity. Qed.

Example clean_json_text_truncated :
  clean_json_text (lit "{ 'questions': [ 1, 2,")
  = lit "{ 'questions': [ 1, 2]" ++ newline :: lit "}".
Proof. reflexivity. Qed.

Example clean_json_text_comment :
  clean_json_text (lit "{ 'a': 1, // one" ++ newline :: lit "  'b': False }")
  = lit "{ 'a': 1, " ++ newline :: lit "  'b': false }".
Proof. reflexivity. Qed.

(** *** Substitution *)

Lemma re_sub_aux_skip (m : matcher) (s : str) :
  forall k, re_sub_aux m k s = re_sub_aux m 0 (skipn k s).
Proof.
  induction s as [|c s IH]; intros [|k]; try reflexivity.
  cbn [re_sub_aux skipn]. apply IH.
Qed.

Lemma re_sub_nil (m : matcher) : re_sub m [] = [].
Proof. reflexivity. Qed.

Lemma re_sub_cons (m : matcher) (c : ascii) (t : str) :
  re_sub m (c :: t) =
  match m (c :: t) with
  | Some (n, repl) => repl ++ re_sub m (skipn (n - 1) t)
  | None => c :: re_sub m t
  end.
Proof.
  unfold re_sub. cbn [re_sub_aux].
  destruct (m (c :: t)) as [[n repl]|]; [|reflexivity].
  now rewrite re_sub_aux_skip.
Qed.

Lemma m_trailing_comma_cons (c : ascii) (t : str) :
  m_trailing_comma (c :: t) =
  if chr_eqb c comma then
    match after_spaces t with
    | b :: _ => if is_closer b then Some ((spaces t + 2)%nat, [b]) else None
    | [] => None
    end
  else None.
Proof. reflexivity. Qed.

Lemma after_spaces_cons (x : ascii) (t : str) :
  after_spaces (x :: t) = if is_space x then after_spaces t else x :: t.
Proof. unfold after_spaces. cbn [spaces]. now destruct (is_space x). Qed.

Lemma after_spaces_tail (t : str) (b : ascii) (r : str) :
  after_spaces t = b :: r -> skipn (spaces t + 1) t = r.
Proof.
  unfold after_spaces. intros H.
  rewrite Nat.add_comm, <- skipn_skipn, H. reflexivity.
Qed.

Lemma after_spaces_length (t : str) (b : ascii) (r : str) :
  after_spaces t = b :: r -> (List.length r < List.length t)%nat.
Proof.
  unfold after_spaces. intros H.
  assert (E : List.length (skipn (spaces t) t) = S (List.length r))
    by now rewrite H.
  rewrite length_skipn in E. lia.
Qed.

Lemma is_closer_not_comma (b : ascii) : is_closer b = true -> chr_eqb b comma = false.
Proof.
  unfold is_closer. intros H. apply orb_true_iff in H.
  destruct H as [H|H]; apply chr_eqb_eq in H; subst; reflexivity.
Qed.

Lemma is_space_not_comma (x : ascii) : is_space x = true -> chr_eqb x comma = false.
Proof.
  intros H. destruct (chr_eqb x comma) eqn:E; [|reflexivity].
  apply chr_eqb_eq in E. subst. discriminate H.
Qed.

Lemma is_closer_not_space (b : ascii) : is_closer b = true -> is_space b = false.
Proof.
  unfold is_closer. intros H. apply orb_true_iff in H.
  destruct H as [H|H]; apply chr_eqb_eq in H; subst; reflexivity.
Qed.

Lemma stacked_commas_tail (c : ascii) (t : str) :
  stacked_commas (c :: t) = false -> stacked_commas t = false.
Proof. cbn [stacked_commas]. intros H. now apply orb_false_iff in H. Qed.

Lemma stacked_commas_skipn (n : nat) :
  forall t, stacked_commas t = false -> stacked_commas (skipn n t) = false.
Proof.
  induction n as [|n IH]; intros [|c t] H; try exact H.
  cbn [skipn]. apply IH. now apply stacked_commas_tail in H.
Qed.

(** A match of the pattern at the head of a text, read off the text. *)
Lemma m_trailing_comma_some (c : ascii) (t : str) (k : nat) (repl : str) :
  m_trailing_comma (c :: t) = Some (k, repl) ->
  exists b r, chr_eqb c comma = true /\ after_spaces t = b :: r
              /\ is_closer b = true /\ k = (spaces t + 2)%nat /\ repl = [b].
Proof.
  rewrite m_trailing_comma_cons. destruct (chr_eqb c comma); [|discriminate].
  fold (after_spaces t).
  destruct (after_spaces t) as [|b r]; [discriminate|].
  destruct (is_closer b) eqn:Hb; [|discriminate].
  intros H; injection H as <- <-. exists b, r. now repeat split.
Qed.

(** One pass over a text with a match at its head. *)
Lemma fix_trailing_commas_match (c : ascii) (t : str) (b : ascii) (r : str) :
  chr_eqb c comma = true -> after_spaces t = b :: r -> is_closer b = true ->
  fix_trailing_commas (c :: t) = b :: fix_trailing_commas r.
Proof.
  intros Hc Ha Hb. unfold fix_trailing_commas.
  rewrite re_sub_cons, m_trailing_comma_cons, Hc.
  fold (after_spaces t). rewrite Ha, Hb.
  replace (spaces t + 2 - 1)%nat with (spaces t + 1)%nat by lia.
  rewrite <- (after_spaces_tail _ _ _ Ha). reflexivity.
Qed.

Lemma fix_trailing_commas_no_match (c : ascii) (t : str) :
  m_trailing_comma (c :: t) = None ->
  fix_trailing_commas (c :: t) = c :: fix_trailing_commas t.
Proof.
  intros H. unfold fix_trailing_commas. now rewrite re_sub_cons, H.
Qed.

(** The repair commutes with skipping the spaces at the head of a text. *)
Lemma fix_trailing_commas_after_spaces (t : str) :
  after_spaces (fix_trailing_commas t) = fix_trailing_commas (after_spaces t).
Proof.
  induction t as [|x t IH]; [reflexivity|].
  rewrite (after_spaces_cons x t). destruct (is_space x) eqn:Hx.
  - rewrite fix_trailing_commas_no_match, after_spaces_cons, Hx; [exact IH|].
    rewrite m_trailing_comma_cons. now rewrite (is_space_not_comma _ Hx).
  - destruct (m_trailing_comma (x :: t)) as [[k repl]|] eqn:E.
    + apply m_trailing_comma_some in E as (b & r & Hc & Ha & Hb & _ & _).
      rewrite (fix_trailing_commas_match x t b r Hc Ha Hb).
      now rewrite after_spaces_cons, (is_closer_not_space _ Hb).
    + rewrite (fix_trailing_commas_no_match _ _ E).
      now rewrite after_spaces_cons, Hx.
Qed.

Lemma fix_trailing_commas_stable (s : str) :
  has_trailing_comma s = false -> fix_trailing_commas s = s.
Proof.
  unfold fix_trailing_commas.
  induction s as [|c t IH]; intros H.
  - reflexivity.
  - cbn [has_trailing_comma] in H. rewrite re_sub_cons.
    destruct (m_trailing_comma (c :: t)); [discriminate|].
    now rewrite IH.
Qed.

Lemma has_trailing_comma_cons (c : ascii) (t : str) :
  has_trailing_comma (c :: t)
  = match m_trailing_comma (c :: t) with
    | Some _ => true
    | None => has_trailing_comma t
    end.
Proof. reflexivity. Qed.

(** Where no commas are stacked, one pass leaves no match. *)
Lemma fix_trailing_commas_clears (n : nat) :
  forall s, (List.length s <= n)%nat -> stacked_commas s = false ->
            has_trailing_comma (fix_trailing_commas s) = false.
Proof.
  induction n as [|n IH]; intros [|c t] Hlen Hst; try reflexivity.
  - simpl in Hlen. lia.
  - simpl in Hlen. pose proof (stacked_commas_tail _ _ Hst) as Ht.
    destruct (m_trailing_comma (c :: t)) as [[k repl]|] eqn:E.
    + apply m_trailing_comma_some in E as (b & r & Hc & Ha & Hb & _ & _).
      rewrite (fix_trailing_commas_match c t b r Hc Ha Hb).
      rewrite has_trailing_comma_cons, m_trailing_comma_cons.
      rewrite (is_closer_not_comma _ Hb).
      apply IH.
      * apply after_spaces_length in Ha. lia.
      * rewrite <- (after_spaces_tail _ _ _ Ha). now apply stacked_commas_skipn.
    + rewrite (fix_trailing_commas_no_match _ _ E), has_trailing_comma_cons.
      assert (Hnone : m_trailing_comma (c :: fix_trailing_commas t) = None).
      { rewrite m_trailing_comma_cons in E |- *.
        destruct (chr_eqb c comma) eqn:Hc; [|reflexivity].
        fold (after_spaces t) in E.
        fold (after_spaces (fix_trailing_commas t)).
        rewrite fix_trailing_commas_after_spaces.
        cbn [stacked_commas] in Hst. rewrite Hc in Hst.
        apply orb_false_iff in Hst as [Hst _]. cbn [andb] in Hst.
        destruct (after_spaces t) as [|b r]; [reflexivity|].
        destruct (is_closer b) eqn:Hb; [discriminate|].
        destruct (m_trailing_comma (b :: r)) as [[k repl]|] eqn:Eb.
        - apply m_trailing_comma_some in Eb as (d & r' & Hbc & Hd & Hdc & _ & _).
          now rewrite Hbc, Hd, Hdc in Hst.
        - rewrite (fix_trailing_commas_no_match _ _ Eb). now rewrite Hb. }
      rewrite Hnone. apply IH; [lia | exact Ht].
Qed.

(** A pass that finds a match gives a shorter text. *)
Lemma fix_trailing_commas_length (n : nat) :
  forall s, (List.length s <= n)%nat ->
            (List.length (fix_trailing_commas s) <= List.length s)%nat
            /\ (has_trailing_comma s = true ->
                (List.length (fix_trailing_commas s) < List.length s)%nat).
Proof.
  induction n as [|n IH]; intros [|c t] Hlen;
    try (split; [apply le_n|discriminate]);
    cbn [List.length] in Hlen; [lia|].
  rewrite has_trailing_comma_cons.
  destruct (m_trailing_comma (c :: t)) as [[k repl]|] eqn:E.
  - apply m_trailing_comma_some in E as (b & r & Hc & Ha & Hb & _ & _).
    rewrite (fix_trailing_commas_match c t b r Hc Ha Hb).
    pose proof (after_spaces_length _ _ _ Ha) as Hr.
    destruct (IH r ltac:(lia)) as [Hle _]. cbn [List.length]. lia.
  - rewrite (fix_trailing_commas_no_match _ _ E). cbn [List.length].
    destruct (IH t ltac:(lia)) as [Hle Hlt]. split; [lia|].
    intros H. specialize (Hlt H). lia.
Qed.

Lemma has_trailing_comma_later (c : ascii) (t : str) :
  has_trailing_comma t = true -> has_trailing_comma (c :: t) = true.
Proof.
  intros H. rewrite has_trailing_comma_cons.
  now destruct (m_trailing_comma (c :: t)).
Qed.

Lemma stacked_commas_after_spaces (t : str) :
  stacked_commas t = stacked_commas (after_spaces t).
Proof.
  induction t as [|x t IH]; [reflexivity|].
  rewrite after_spaces_cons. destruct (is_space x) eqn:Hx; [|reflexivity].
  cbn [stacked_commas]. now rewrite (is_space_not_comma _ Hx).
Qed.

(** Where commas are stacked, one pass leaves a match. *)
Lemma fix_trailing_commas_leaves (n : nat) :
  forall s, (List.length s <= n)%nat -> stacked_commas s = true ->
            has_trailing_comma (fix_trailing_commas s) = true.
Proof.
  induction n as [|n IH]; intros [|c t] Hlen Hst; try discriminate.
  - simpl in Hlen. lia.
  - simpl in Hlen.
    destruct (m_trailing_comma (c :: t)) as [[k repl]|] eqn:E.
    + apply m_trailing_comma_some in E as (b & r & Hc & Ha & Hb & _ & _).
      rewrite (fix_trailing_commas_match c t b r Hc Ha Hb).
      apply has_trailing_comma_later. apply IH.
      * apply after_spaces_length in Ha. lia.
      * cbn [stacked_commas] in Hst. rewrite Hc, Ha in Hst.
        rewrite (is_closer_not_comma _ Hb) in Hst. cbn [andb orb] in Hst.
        rewrite stacked_commas_after_spaces, Ha in Hst.
        cbn [stacked_commas] in Hst.
        now rewrite (is_closer_not_comma _ Hb) in Hst.
    + rewrite (fix_trailing_commas_no_match _ _ E), has_trailing_comma_cons.
      cbn [stacked_commas] in Hst. apply orb_true_iff in Hst as [Hst|Hst].
      * apply andb_true_iff in Hst as [Hc Hst].
        destruct (after_spaces t) as [|b r] eqn:Ha; [discriminate|].
        apply andb_true_iff in Hst as [Hbc Hst].
        destruct (after_spaces r) as [|d r'] eqn:Hd; [discriminate|].
        rewrite m_trailing_comma_cons, Hc.
        fold (after_spaces (fix_trailing_commas t)).
        rewrite fix_trailing_commas_after_spaces, Ha.
        rewrite (fix_trailing_commas_match b r d r' Hbc Hd Hst).
        now rewrite Hst.
      * rewrite (IH t ltac:(lia) Hst).
        now destruct (m_trailing_comma (c :: fix_trailing_commas t)).
Qed.

(** C5, as the code has it. One pass of the trailing-comma repair is a
    fixed point of the repair on every text but those in which a comma is
    followed, after optional spaces, by a second comma that stands, after
    optional spaces, before a closing bracket or brace; on those a second
    pass changes the text again. *)
Theorem fix_trailing_commas_idempotent (s : str) :
  (stacked_commas s = false ->
   fix_trailing_commas (fix_trailing_commas s) = fix_trailing_commas s)
  /\ (stacked_commas s = true ->
      fix_trailing_commas (fix_trailing_commas s) <> fix_trailing_commas s).
Proof.
  split; intros H.
  - apply fix_trailing_commas_stable.
    now apply (fix_trailing_commas_clears (List.length s)).
  - intros E.
    pose proof (fix_trailing_commas_leaves (List.length s) s (le_n _) H) as Hm.
    destruct (fix_trailing_commas_length
                (List.length (fix_trailing_commas s))
                (fix_trailing_commas s) (le_n _)) as [_ Hlt].
    specialize (Hlt Hm). rewrite E in Hlt. lia.
Qed.

Lemma fix_trailing_commas_idempotent_witness :
  fix_trailing_commas (lit "{'a': ',,', 'b': [1, ], 'c': {'d': 3 ,  }, }")
  = lit "{'a': ',,', 'b': [1], 'c': {'d': 3 }}"
  /\ fix_trailing_commas
       (fix_trailing_commas
          (lit "{'a': ',,', 'b': [1, ], 'c': {'d': 3 ,  }, }"))
     = fix_trailing_commas
         (lit "{'a': ',,', 'b': [1, ], 'c': {'d': 3 ,  }, }").
Proof.
  split; [reflexivity|].
  apply (proj1 (fix_trailing_commas_idempotent
                  (lit "{'a': ',,', 'b': [1, ], 'c': {'d': 3 ,  }, }"))).
  reflexivity.
Defined.

(** C5, as the claim states it, fails: of two commas before a closing
    bracket one pass removes the second only, and a second pass removes
    the first. *)
Lemma fix_trailing_commas_not_idempotent :
  ~ (forall s : str,
        fix_trailing_commas (fix_trailing_commas s) = fix_trailing_commas s).
Proof.
  intros H. specialize (H (lit "[1,,]")). vm_compute in H. discriminate H.
Qed.

(** C6. The literal rewrite of the sanitizer guards [True] and [False] with
    word boundaries, and rewrites [None] without one: the text
    [{"feedback": "Status: Nonexistent"}] comes out with its string value
    changed, while a word that begins with [True] or [False] is kept. *)
Theorem fix_literals_none_prefix :
  clean_json_text
    (lbrace :: quoted "feedback" ++ lit ": " ++ quoted "Status: Nonexistent"
            ++ [rbrace])
  = lbrace :: quoted "feedback" ++ lit ": " ++ quoted "Status: nullxistent"
           ++ [rbrace]
  /\ fix_literals (lit "{k: Nonesuch}") = lit "{k: nullsuch}"
  /\ fix_literals (lit "{k: Truest, j: Falsetto}") = lit "{k: Truest, j: Falsetto}"
  /\ fix_literals (lit "{k:None, j:  True, i: False}")
     = lit "{k: null, j: true, i: false}".
Proof. repeat split; vm_compute; reflexivity. Qed.

(** ** The display score *)

Lemma fold_total_sum (scores : list float) :
  forall f, fold_total (Sum f) scores = Sum (fold_left fadd scores f).
Proof.
  induction scores as [|s rest IH]; intros f; [reflexivity|].
  cbn [fold_total fold_left total_add]. apply IH.
Qed.

Lemma score_entry_scored (rt : runtime) (r : dict) (s : float) :
  scored rt (Obj r) s ->
  exists r', score_entry rt r = Some (s, r').
Proof.
  intros (r0 & v & E & Hget & _ & Hf). injection E as <-.
  unfold score_entry. rewrite Hget, Hf. eauto.
Qed.

Lemma score_loop_scored (rt : runtime) (items : list item) (scores : list float) :
  Forall2 (scored rt) items scores ->
  forall t, exists rs,
      score_loop rt t items = Some (fold_total t scores, rs)
      /\ List.length rs = List.length items.
Proof.
  induction 1 as [|it s items scores Hs _ IH]; intros t.
  - exists []. split; reflexivity.
  - pose proof Hs as (r & v & -> & _).
    destruct (score_entry_scored rt r s Hs) as [r' Hr'].
    destruct (IH (Sum (total_add t s))) as (rs & Hrs & Hlen).
    exists (r' :: rs). cbn [score_loop fold_total].
    rewrite Hr', Hrs. split; [reflexivity|]. simpl. now rewrite Hlen.
Qed.

Lemma display_of_scored (rt : runtime) (items : list item) (scores : list float) :
  Forall2 (scored rt) items scores ->
  items <> [] \/ int_has_is_integer rt = true ->
  exists rs, score_results rt (RArray items)
             = Some (obtained_of_total scores (List.length items), rs)
             /\ List.length rs = List.length items.
Proof.
  intros H Hne.
  destruct (score_loop_scored rt items scores H IntZero) as (rs & Hrs & Hlen).
  exists rs. split; [|exact Hlen].
  unfold score_results. cbn [items_of]. rewrite Hrs.
  destruct H as [|it s items scores _ _].
  - destruct Hne as [Hne|Hv]; [now elim Hne|].
    unfold display_score. cbn [fold_total numerator]. rewrite Hv. reflexivity.
  - cbn [fold_total total_add]. rewrite fold_total_sum. reflexivity.
Qed.

Lemma score_results_empty (rt : runtime) :
  match score_results rt (RArray []) with
  | Some (sc, rs) => mk_evaluation sc rs
  | None => empty_evaluation
  end = empty_evaluation.
Proof.
  unfold score_results, display_score. cbn [items_of score_loop numerator].
  destruct (int_has_is_integer rt); reflexivity.
Qed.

(** C7. For a result sequence that is not empty and whose entries carry
    numeric scores, the display score is the float sum of the scores,
    written as an integer when it has no fractional part and rounded to
    two decimals otherwise, a slash, and the number of entries. On the
    empty sequence the sum is still the [int] it started as: where [int]
    has no [is_integer] the formatting raises, which the helper
    [evaluate_submission_ai] turns into the score 0/0 and
    [submit_student_quiz] into the status 500. The four sequences of the
    specification give 2/3, 2/3, 1/1 and 0.33/1; sums that need the
    rounding give 0.67/2, 0.12/1, 0.3/2, 0.88/3 and, rounded up to a whole
    number, 1.0/1. *)
Theorem display_score_of_entries (rt : runtime) (items : list item)
    (scores : list float) :
  Forall2 (scored rt) items scores ->
  (items <> [] ->
   display_of rt items = Some (obtained_of_total scores (List.length items)))
  /\ (forall calls questions answers api_key content doc,
         api_key <> [] ->
         generate_content rt calls = LlmText (Some content) ->
         loads rt (clean_json_text content) = Some doc ->
         doc_results doc = RArray items ->
         field_get (lit "score")
           (fst (evaluate_submission_ai rt calls questions answers api_key))
         = Some (FScore (obtained_of_total scores (List.length items))))
  /\ display_of rt []
     = (if int_has_is_integer rt then Some (lit "0/0") else None)
  /\ (forall calls quiz_format questions answers content doc,
         is_objective quiz_format = false ->
         generate_content rt calls = LlmText (Some content) ->
         loads rt (clean_json_text content) = Some doc ->
         doc_results doc = RArray [] ->
         submit_student_quiz rt calls quiz_format questions answers
         = (if int_has_is_integer rt
            then Ok {| graded_score := lit "0/0"; graded_feedback := [] |}
            else HTTPException 500,
            S calls))
  /\ submit_student_quiz
       (constant_runtime (LlmText (Some (lit "{}")))
                         (Some (results_document [])) false)
       0 (lit "theory") [sample_question] [(lit "1", PStr (lit "four"))]
     = (HTTPException 500, 1%nat)
  /\ display_of rt [entry_with 1 fone; entry_with 2 fone; entry_with 3 fzero]
     = Some (lit "2/3")
  /\ display_of rt [entry_with 1 fone; entry_with 2 fhalf; entry_with 3 fhalf]
     = Some (lit "2/3")
  /\ display_of rt [entry_with 1 fone] = Some (lit "1/1")
  /\ display_of rt [entry_with 1 f033] = Some (lit "0.33/1")
  /\ display_of rt [entry_with 1 (float_of_ratio false 333 1000);
                    entry_with 2 (float_of_ratio false 333 1000)]
     = Some (lit "0.67/2")
  /\ display_of rt [entry_with 1 (float_of_ratio false 1 8)]
     = Some (lit "0.12/1")
  /\ display_of rt [entry_with 1 (float_of_ratio false 1 10);
                    entry_with 2 (float_of_ratio false 2 10)]
     = Some (lit "0.3/2")
  /\ display_of rt [entry_with 1 (float_of_ratio false 1 4);
                    entry_with 2 (float_of_ratio false 1 8);
                    entry_with 3 fhalf]
     = Some (lit "0.88/3")
  /\ display_of rt [entry_with 1 (float_of_ratio false 999 1000)]
     = Some (lit "1.0/1").
Proof.
  intros H. split; [|split; [|split; [|split; [|repeat split; reflexivity]]]].
  - intros Hne. unfold display_of.
    destruct (display_of_scored rt items scores H (or_introl Hne))
      as (rs & -> & _).
    reflexivity.
  - intros calls questions answers api_key content doc Hk Hreply Hdoc Hres.
    unfold evaluate_submission_ai.
    destruct api_key as [|c k]; [now elim Hk|].
    unfold evaluate_reply. rewrite Hreply, Hdoc, Hres.
    destruct items as [|it items].
    + inversion H; subst.
      pose proof (score_results_empty rt) as He.
      destruct (score_results rt (RArray [])) as [[sc rs]|];
        cbn [fst]; [rewrite He|]; reflexivity.
    + destruct (display_of_scored rt (it :: items) scores H) as (rs & -> & _).
      * left. discriminate.
      * reflexivity.
  - unfold display_of, score_results, display_score.
    cbn [items_of score_loop numerator].
    destruct (int_has_is_integer rt); reflexivity.
  - intros calls quiz_format questions answers content doc Hf Hreply Hdoc Hres.
    unfold submit_student_quiz, evaluate_reply.
    rewrite Hf, Hreply, Hdoc, Hres.
    unfold score_results, display_score.
    cbn [items_of score_loop numerator].
    destruct (int_has_is_integer rt); reflexivity.
Qed.

Lemma display_score_of_entries_witness :
  display_of (constant_runtime LlmRaises None false)
             [entry_with 1 (float_of_ratio false 333 1000);
              entry_with 2 fhalf;
              entry_with 3 (float_of_ratio false 1 3)]
  = Some (lit "1.17/3").
Proof.
  refine (eq_trans
            (proj1 (display_score_of_entries
                      (constant_runtime LlmRaises None false)
                      [entry_with 1 (float_of_ratio false 333 1000);
                       entry_with 2 fhalf;
                       entry_with 3 (float_of_ratio false 1 3)]
                      [float_of_ratio false 333 1000; fhalf;
                       float_of_ratio false 1 3] _) _) _).
  - repeat constructor; eexists; eexists; repeat split; reflexivity.
  - discriminate.
  - vm_compute. reflexivity.
Defined.

(** ** Dictionaries and ids *)

Lemma dict_get_set_same (k : str) (v : pyval) (d : dict) :
  dict_get k (dict_set k v d) = Some v.
Proof.
  induction d as [|[k' v'] d IH]; cbn [dict_set dict_get].
  - now rewrite str_eqb_refl.
  - destruct (str_eqb k' k) eqn:E; cbn [dict_get].
    + now rewrite str_eqb_refl.
    + now rewrite E.
Qed.

Lemma lit_inj (a b : string) : lit a = lit b -> a = b.
Proof.
  unfold lit. intros H.
  rewrite <- (string_of_list_ascii_of_string a),
          <- (string_of_list_ascii_of_string b).
  now rewrite H.
Qed.

Lemma str_of_Z_inj (a b : Z) : str_of_Z a = str_of_Z b -> a = b.
Proof.
  unfold str_of_Z. intros H. apply lit_inj in H.
  apply DecimalZ.to_int_inj.
  assert (E : Some (Z.to_int a) = Some (Z.to_int b))
    by (rewrite <- !NilEmpty.isi; now rewrite H).
  now injection E.
Qed.

(** ** Correlation of the grading results *)

Lemma correlate_from_nth (questions : list Question) (answers : str_dict)
    (feedback : list dict) :
  forall k i,
    nth_error (correlate_from questions answers k feedback) i
    = option_map (correlate_entry questions answers (k + i))
                 (nth_error feedback i).
Proof.
  induction feedback as [|e rest IH]; intros k [|i]; cbn [correlate_from nth_error].
  - reflexivity.
  - reflexivity.
  - now rewrite Nat.add_0_r.
  - rewrite IH. now rewrite Nat.add_succ_comm.
Qed.

Lemma correlate_from_length (questions : list Question) (answers : str_dict)
    (feedback : list dict) :
  forall k, List.length (correlate_from questions answers k feedback)
            = List.length feedback.
Proof.
  induction feedback as [|e rest IH]; intros k; cbn [correlate_from List.length].
  - reflexivity.
  - now rewrite IH.
Qed.

Lemma correlate_entry_matched (questions : list Question) (answers : str_dict)
    (idx : nat) (entry : dict) (q : Question) :
  q_match questions idx entry = Some q ->
  dict_get (lit "id") (correlate_entry questions answers idx entry)
  = Some (PInt (q_id q)).
Proof.
  intros H. unfold correlate_entry. rewrite H. apply dict_get_set_same.
Qed.

Lemma q_match_in (questions : list Question) (idx : nat) (entry : dict)
    (q : Question) :
  q_match questions idx entry = Some q -> In q questions.
Proof.
  unfold q_match, match_by_id.
  destruct (List.find _ questions) as [q'|] eqn:E.
  - intros H; injection H as <-. now apply find_some in E.
  - destruct (idx <? List.length questions)%nat; [|discriminate].
    apply nth_error_In.
Qed.

Lemma find_first {A : Type} (P : A -> bool) (before after : list A) (x : A) :
  Forall (fun y => P y = false) before -> P x = true ->
  List.find P (before ++ x :: after) = Some x.
Proof.
  induction 1 as [|y before Hy _ IH]; intros Hx; cbn [app List.find].
  - now rewrite Hx.
  - rewrite Hy. now apply IH.
Qed.

Lemma find_nowhere {A : Type} (P : A -> bool) (l : list A) :
  Forall (fun y => P y = false) l -> List.find P l = None.
Proof.
  induction 1 as [|y l Hy _ IH]; cbn [List.find]; [reflexivity|].
  now rewrite Hy.
Qed.

Lemma same_id_eqb (q : Question) (entry : dict) :
  ~ same_id q entry ->
  str_eqb (str_of_Z (q_id q)) (py_str (get (lit "id") entry)) = false.
Proof.
  intros H. destruct (str_eqb _ _) eqn:E; [|reflexivity].
  apply str_eqb_eq in E. now elim H.
Qed.

Lemma match_by_id_first (before after : list Question) (q : Question)
    (entry : dict) :
  same_id q entry -> Forall (fun p => ~ same_id p entry) before ->
  match_by_id (before ++ q :: after) (py_str (get (lit "id") entry)) = Some q.
Proof.
  intros Hq Hb. unfold match_by_id. apply find_first.
  - eapply Forall_impl; [|exact Hb]. intros p. apply same_id_eqb.
  - now apply str_eqb_eq.
Qed.

Lemma match_by_id_nowhere (questions : list Question) (entry : dict) :
  Forall (fun p => ~ same_id p entry) questions ->
  match_by_id questions (py_str (get (lit "id") entry)) = None.
Proof.
  intros H. unfold match_by_id. apply find_nowhere.
  eapply Forall_impl; [|exact H]. intros p. apply same_id_eqb.
Qed.

Lemma match_by_id_somewhere (questions : list Question) (entry : dict) :
  Exists (fun p => same_id p entry) questions ->
  exists q, match_by_id questions (py_str (get (lit "id") entry)) = Some q.
Proof.
  intros H. unfold match_by_id.
  destruct (List.find _ questions) as [q|] eqn:E; [now exists q|].
  apply Exists_exists in H as (p & Hin & Hp).
  pose proof (find_none _ _ E p Hin) as Hn. cbv beta in Hn.
  apply str_eqb_eq in Hp. congruence.
Qed.

(** C2. An entry of a result sequence is correlated to the first stored
    question whose id, as a string, is the entry's id as a string (for an
    integer id: whose id is that integer), and when no stored question has
    the entry's id, to the stored question at the entry's own position; the
    entry's id is then rewritten to the id of that question, a stored one.
    Results numbered 1, 2, 3 against the stored ids 101, 102, 103 come out
    with the ids 101, 102, 103; results that carry the stored ids 103 and
    101 keep them, whatever their positions. *)
Theorem correlation_rewrites_id (questions : list Question)
    (answers : str_dict) (feedback : list dict) (idx : nat) (entry : dict) :
  nth_error feedback idx = Some entry ->
  (exists entry',
      nth_error (correlate questions answers feedback) idx = Some entry'
      /\ (forall before q after,
             questions = before ++ q :: after ->
             same_id q entry ->
             Forall (fun p => ~ same_id p entry) before ->
             dict_get (lit "id") entry' = Some (PInt (q_id q)))
      /\ (Forall (fun p => ~ same_id p entry) questions ->
          forall q, nth_error questions idx = Some q ->
                    dict_get (lit "id") entry' = Some (PInt (q_id q)))
      /\ (Exists (fun p => same_id p entry) questions
          \/ (idx < List.length questions)%nat ->
          exists q, In q questions
                    /\ dict_get (lit "id") entry' = Some (PInt (q_id q))))
  /\ (forall k q, get (lit "id") entry = PInt k ->
                  (same_id q entry <-> q_id q = k))
  /\ ids_of (correlate [stored 101 "A"; stored 102 "B"; stored 103 "C"] answers
               [[(lit "id", PInt 1)]; [(lit "id", PInt 2)]; [(lit "id", PInt 3)]])
     = [PInt 101; PInt 102; PInt 103]
  /\ ids_of (correlate [stored 101 "A"; stored 102 "B"; stored 103 "C"] answers
               [[(lit "id", PInt 103)]; [(lit "id", PInt 101)]])
     = [PInt 103; PInt 101]
  /\ ids_of (correlate [stored 101 "A"; stored 102 "B"; stored 103 "C"] answers
               [[(lit "id", PInt 102)]; [(lit "id", PInt 7)]])
     = [PInt 102; PInt 102].
Proof.
  intros Hnth. split; [|split; [|repeat split; reflexivity]].
  - exists (correlate_entry questions answers idx entry).
    split; [|split; [|split]].
    + unfold correlate. rewrite correlate_from_nth, Hnth. reflexivity.
    + intros before q after -> Hq Hb. apply correlate_entry_matched.
      unfold q_match. now rewrite match_by_id_first.
    + intros Hno q Hq. apply correlate_entry_matched.
      unfold q_match. rewrite match_by_id_nowhere by exact Hno.
      assert (Hlt : (idx < List.length questions)%nat)
        by (apply nth_error_Some; congruence).
      apply Nat.ltb_lt in Hlt. now rewrite Hlt.
    + intros Hor.
      assert (Hm : exists q, q_match questions idx entry = Some q).
      { unfold q_match.
        destruct (match_by_id questions (py_str (get (lit "id") entry)))
          as [q|] eqn:E; [now exists q|].
        destruct Hor as [Hex|Hlt].
        - apply match_by_id_somewhere in Hex as [q Hq]. congruence.
        - pose proof Hlt as Hb. apply Nat.ltb_lt in Hb. rewrite Hb.
          destruct (nth_error questions idx) as [q|] eqn:En; [now exists q|].
          apply nth_error_None in En. lia. }
      destruct Hm as [q Hm]. exists q. split.
      * now apply q_match_in in Hm.
      * now apply correlate_entry_matched.
  - intros k q Hk. unfold same_id. rewrite Hk. cbn [py_str]. split.
    + apply str_of_Z_inj.
    + now intros ->.
Qed.

Lemma correlation_rewrites_id_witness :
  exists entry',
    nth_error (correlate [stored 101 "A"; stored 102 "B"; stored 103 "C"] []
                         [[(lit "id", PInt 103)]; [(lit "id", PInt 101)]]) 0
    = Some entry'
    /\ dict_get (lit "id") entry' = Some (PInt 103).
Proof.
  destruct (proj1 (correlation_rewrites_id
                     [stored 101 "A"; stored 102 "B"; stored 103 "C"] []
                     [[(lit "id", PInt 103)]; [(lit "id", PInt 101)]]
                     0 [(lit "id", PInt 103)] eq_refl))
    as (entry' & Hn & Hid & _).
  exists entry'. split; [exact Hn|].
  apply (Hid [stored 101 "A"; stored 102 "B"] (stored 103 "C") []).
  - reflexivity.
  - reflexivity.
  - repeat constructor; intros H; vm_compute in H; discriminate H.
Defined.

(** C3, as the code has it. An entry that is correlated to no stored
    question, by id or by position, stays in the feedback list at its
    position and unchanged, and the list keeps its length: the feedback the
    handler persists and returns holds it. *)
Theorem correlation_keeps_unmatched (questions : list Question)
    (answers : str_dict) (feedback : list dict) (idx : nat) (entry : dict) :
  nth_error feedback idx = Some entry ->
  q_match questions idx entry = None ->
  nth_error (correlate questions answers feedback) idx = Some entry
  /\ List.length (correlate questions answers feedback) = List.length feedback
  /\ (forall rt calls api_key sc,
         fst (evaluate_submission_ai rt calls (questions_data questions)
                (answers_data answers) (key_or_dummy api_key))
         = mk_evaluation sc feedback ->
         exists g,
           fst (submit_individual_attempt rt calls questions api_key answers)
           = Ok g
           /\ nth_error (graded_feedback g) idx = Some entry).
Proof.
  intros Hnth Hm.
  assert (Hkept : nth_error (correlate questions answers feedback) idx
                  = Some entry).
  { unfold correlate. rewrite correlate_from_nth, Hnth. cbn [option_map Nat.add].
    unfold correlate_entry. now rewrite Hm. }
  split; [exact Hkept|]. split; [apply correlate_from_length|].
  intros rt calls api_key sc He.
  unfold submit_individual_attempt.
  destruct (evaluate_submission_ai rt calls (questions_data questions)
              (answers_data answers) (key_or_dummy api_key)) as [e calls'].
  cbn [fst] in He. subst e.
  change (graded_feedback (graded_of (mk_evaluation sc feedback))) with feedback.
  destruct feedback as [|e0 rest]; [now destruct idx|].
  eexists. split; [reflexivity|]. exact Hkept.
Qed.

Lemma correlation_keeps_unmatched_witness :
  nth_error (correlate [stored 101 "A"] []
                       [[(lit "id", PInt 1)]; [(lit "id", PInt 2)]]) 1
  = Some [(lit "id", PInt 2)].
Proof.
  refine (proj1 (correlation_keeps_unmatched [stored 101 "A"] []
                   [[(lit "id", PInt 1)]; [(lit "id", PInt 2)]] 1
                   [(lit "id", PInt 2)] _ _)); reflexivity.
Defined.

(** C3, as the claim states it, fails: with one stored question and two
    result entries, the second entry is matched by nothing and is still in
    the feedback list. *)
Lemma correlation_discards_nothing :
  ~ (forall (questions : list Question) (answers : str_dict)
            (feedback : list dict) (idx : nat) (entry : dict),
        nth_error feedback idx = Some entry ->
        q_match questions idx entry = None ->
        ~ In entry (correlate questions answers feedback)).
Proof.
  intros H.
  apply (H [stored 101 "A"] []
           [[(lit "id", PInt 1)]; [(lit "id", PInt 2)]] 1%nat
           [(lit "id", PInt 2)]).
  - reflexivity.
  - reflexivity.
  - right. left. reflexivity.
Qed.

(** ** The fallback grading *)

Lemma match_by_id_stored (questions : list Question) (q : Question) :
  In q questions ->
  exists q', match_by_id questions (str_of_Z (q_id q)) = Some q'
             /\ q_id q' = q_id q.
Proof.
  intros Hin. unfold match_by_id.
  destruct (List.find _ questions) as [q'|] eqn:E.
  - exists q'. split; [reflexivity|].
    apply find_some in E as [_ E]. apply str_eqb_eq in E.
    now apply str_of_Z_inj.
  - apply (find_none _ _ E) in Hin. now rewrite str_eqb_refl in Hin.
Qed.

(** The correlation loop changes no entry of the fallback grading. *)
Lemma correlate_entry_fallback (questions : list Question) (answers : str_dict)
    (idx : nat) (q : Question) :
  In q questions ->
  correlate_entry questions answers idx (fallback_entry answers q)
  = fallback_entry answers q.
Proof.
  intros Hin. unfold correlate_entry, q_match.
  change (py_str (get (lit "id") (fallback_entry answers q)))
    with (str_of_Z (q_id q)).
  destruct (match_by_id_stored questions q Hin) as (q' & -> & Hid).
  change (dict_has (lit "user_answer") (fallback_entry answers q)) with true.
  change (dict_has (lit "correct_answer") (fallback_entry answers q)) with true.
  cbv iota. rewrite Hid. reflexivity.
Qed.

Lemma correlate_from_fallback (questions : list Question) (answers : str_dict)
    (l : list Question) :
  incl l questions ->
  forall k, correlate_from questions answers k (map (fallback_entry answers) l)
            = map (fallback_entry answers) l.
Proof.
  induction l as [|q l IH]; intros Hincl k; cbn [map correlate_from].
  - reflexivity.
  - rewrite correlate_entry_fallback by (apply Hincl; now left).
    rewrite IH; [reflexivity|].
    intros x Hx. apply Hincl. now right.
Qed.

Lemma evaluate_submission_ai_results (rt : runtime) (calls : nat)
    (questions : list dict) (answers : dict) (c : ascii) (k : str) :
  results_of (fst (evaluate_submission_ai rt calls questions answers (c :: k)))
  = match evaluate_reply rt (generate_content rt calls) with
    | Some (_, rs) => rs
    | None => []
    end.
Proof.
  unfold evaluate_submission_ai.
  destruct (evaluate_reply rt (generate_content rt calls)) as [[sc rs]|];
    reflexivity.
Qed.

Lemma key_or_dummy_nonempty (api_key : option str) :
  exists c k, key_or_dummy api_key = c :: k.
Proof.
  destruct api_key as [[|c k]|]; cbn [key_or_dummy]; eauto;
    unfold lit; cbn [list_ascii_of_string]; eauto.
Qed.

(** C1, as the code has it. In [submit_individual_attempt], when the call
    of the LLM raises, when its reply cannot be sanitized, parsed or scored,
    or when the result sequence is empty, the submission is answered with
    the exact-match grading of every stored question: one entry per
    question, in the order of the questions, which is not empty when the
    questions are not. In [submit_student_quiz] a quiz of an open-ended
    format whose reply cannot be evaluated is answered with the status
    500. *)
Theorem fallback_grading_on_failure (rt : runtime) (calls : nat)
    (questions : list Question) (api_key : option str) (answers : str_dict) :
  generate_content rt calls = LlmRaises
  \/ evaluate_reply rt (generate_content rt calls) = None
  \/ (exists sc, evaluate_reply rt (generate_content rt calls) = Some (sc, [])) ->
  (exists g,
      fst (submit_individual_attempt rt calls questions api_key answers) = Ok g
      /\ graded_feedback g = map (fallback_entry answers) questions
      /\ List.length (graded_feedback g) = List.length questions
      /\ (questions <> [] -> graded_feedback g <> [])
      /\ graded_score g
         = count_score (count_correct (fallback_is_correct answers) questions)
                       (List.length questions))
  /\ (forall quiz_format qs ans,
         is_objective quiz_format = false ->
         evaluate_reply rt (generate_content rt calls) = None ->
         submit_student_quiz rt calls quiz_format qs ans
         = (HTTPException 500, S calls)).
Proof.
  intros H. split.
  - assert (Hempty :
      results_of (fst (evaluate_submission_ai rt calls (questions_data questions)
                         (answers_data answers) (key_or_dummy api_key))) = []).
    { destruct (key_or_dummy_nonempty api_key) as (c & k & ->).
      rewrite evaluate_submission_ai_results.
      destruct H as [H | [H | [sc H]]]; rewrite H; reflexivity. }
    unfold submit_individual_attempt.
    destruct (evaluate_submission_ai rt calls (questions_data questions)
                (answers_data answers) (key_or_dummy api_key)) as [e calls'].
    cbn [fst] in Hempty. unfold results_of in Hempty. rewrite Hempty.
    eexists. split; [reflexivity|].
    change (graded_feedback (graded_of (fallback_grading questions answers)))
      with (map (fallback_entry answers) questions).
    cbn [graded_feedback graded_score].
    unfold correlate.
    rewrite correlate_from_fallback by apply incl_refl.
    repeat split.
    + apply length_map.
    + intros Hne Hnil. apply Hne. now apply map_eq_nil in Hnil.
  - intros quiz_format qs ans Hfmt Hnone.
    unfold submit_student_quiz. now rewrite Hfmt, Hnone.
Qed.

Lemma fallback_grading_on_failure_witness :
  exists g,
    fst (submit_individual_attempt (constant_runtime LlmRaises None true) 0
           [stored 101 "A"; stored 102 "B"] None [(lit "101", lit " a ")])
    = Ok g
    /\ List.length (graded_feedback g) = 2%nat
    /\ graded_score g = lit "1/2".
Proof.
  destruct (proj1 (fallback_grading_on_failure
                     (constant_runtime LlmRaises None true) 0
                     [stored 101 "A"; stored 102 "B"] None
                     [(lit "101", lit " a ")] (or_introl eq_refl)))
    as (g & Hg & _ & Hlen & _ & Hscore).
  exists g. repeat split; [exact Hg | exact Hlen | exact Hscore].
Defined.

(** C1, as the claim states it, fails: for a quiz of the format [theory]
    with one stored question, [submit_student_quiz] answers a raising call
    of the LLM with the status 500. *)
Lemma student_submission_has_no_fallback :
  ~ (forall (rt : runtime) (calls : nat) (quiz_format : str)
            (questions : list dict) (answers : dict),
        is_objective quiz_format = false ->
        questions <> [] ->
        generate_content rt calls = LlmRaises ->
        exists g,
          fst (submit_student_quiz rt calls quiz_format questions answers) = Ok g
          /\ List.length (graded_feedback g) = List.length questions).
Proof.
  intros H.
  destruct (H (constant_runtime LlmRaises None true) 0%nat (lit "theory")
              [[(lit "id", PInt 1); (lit "correct_answer", PStr (lit "A"))]]
              [(lit "1", PStr (lit "a"))])
    as (g & Hg & _); try reflexivity; discriminate.
Qed.

(** ** The exact-match comparator *)

Lemma same_answer_spec (a b : str) :
  same_answer a b = true <-> lower (strip a) = lower (strip b).
Proof. apply str_eqb_eq. Qed.

(** C8, as the code has it. For a quiz of an objective format
    [submit_student_quiz] grades locally, without a call of the LLM, one
    entry per stored question: the score is 1.0 when the submitted answer
    and the stored correct answer are both present and not empty and are
    equal after trimming and lowering, and 0.0 otherwise. The fallback of
    [submit_individual_attempt] reads a missing answer as the empty string
    and scores 1.0 exactly when the two are equal after trimming and
    lowering. A submitted [" a "] matches a stored ["A"] in both. *)
Theorem objective_grading_exact_match (rt : runtime) (calls : nat)
    (quiz_format : str) (questions : list dict) (answers : dict) :
  is_objective quiz_format = true ->
  (exists g,
      submit_student_quiz rt calls quiz_format questions answers = (Ok g, calls)
      /\ graded_feedback g = map (objective_entry answers) questions)
  /\ (forall q,
         let submitted := get (py_str (get (lit "id") q)) answers in
         let correct := get (lit "correct_answer") q in
         dict_get (lit "score") (objective_entry answers q)
         = Some (PFloat
                   (if truthy submitted && truthy correct
                       && same_answer (py_str submitted) (py_str correct)
                    then fone else fzero)))
  /\ (forall (submitted : str_dict) (q : Question),
         dict_get (lit "score") (fallback_entry submitted q)
         = Some (PFloat
                   (if same_answer (get_or_empty (str_of_Z (q_id q)) submitted)
                                   (or_empty (q_correct_answer q))
                    then fone else fzero)))
  /\ (forall a b, same_answer a b = true <-> lower (strip a) = lower (strip b))
  /\ dict_get (lit "score")
       (objective_entry [(lit "7", PStr (lit " a "))]
          [(lit "id", PInt 7); (lit "correct_answer", PStr (lit "A"))])
     = Some (PFloat fone)
  /\ dict_get (lit "score")
       (fallback_entry [(lit "7", lit " a ")] (stored 7 "A"))
     = Some (PFloat fone).
Proof.
  intros Hfmt. split; [|split; [|split; [|split; [|split]]]].
  - unfold submit_student_quiz. rewrite Hfmt. eexists. split; reflexivity.
  - intros q submitted correct.
    change (dict_get (lit "score") (objective_entry answers q))
      with (Some (PFloat (score_of (objective_is_correct answers q)))).
    unfold objective_is_correct, score_of. fold submitted correct.
    now destruct (truthy submitted && truthy correct).
  - reflexivity.
  - apply same_answer_spec.
  - reflexivity.
  - reflexivity.
Qed.

Lemma objective_grading_exact_match_witness :
  exists g,
    submit_student_quiz (constant_runtime LlmRaises None false) 3
      (lit "Multiple Choice")
      [[(lit "id", PInt 7); (lit "correct_answer", PStr (lit "A"))]]
      [(lit "7", PStr (lit " a "))]
    = (Ok g, 3%nat)
    /\ graded_feedback g
       = map (objective_entry [(lit "7", PStr (lit " a "))])
             [[(lit "id", PInt 7); (lit "correct_answer", PStr (lit "A"))]].
Proof.
  exact (proj1 (objective_grading_exact_match
                  (constant_runtime LlmRaises None false) 3
                  (lit "Multiple Choice")
                  [[(lit "id", PInt 7); (lit "correct_answer", PStr (lit "A"))]]
                  [(lit "7", PStr (lit " a "))] eq_refl)).
Defined.

(** C8, as the claim states it, fails in [submit_student_quiz]: an empty
    submitted answer and an empty stored correct answer are equal after
    trimming and lowering, and the question is graded as wrong. *)
Lemma objective_grading_skips_empty :
  ~ (forall (answers : dict) (q : dict),
        objective_is_correct answers q
        = same_answer (py_str (get (py_str (get (lit "id") q)) answers))
                      (py_str (get (lit "correct_answer") q))).
Proof.
  intros H.
  specialize (H [(lit "1", PStr [])]
                [(lit "id", PInt 1); (lit "correct_answer", PStr [])]).
  vm_compute in H. discriminate H.
Qed.

(** ** The AI evaluation helper *)

Lemma evaluate_submission_ai_shape (rt : runtime) (calls : nat)
    (questions : list dict) (answers : dict) (api_key : str) :
  exists sc rs,
    fst (evaluate_submission_ai rt calls questions answers api_key)
    = mk_evaluation sc rs.
Proof.
  unfold evaluate_submission_ai. destruct api_key as [|c k].
  - exists (lit "0/0"), []. reflexivity.
  - destruct (evaluate_reply rt (generate_content rt calls)) as [[sc rs]|].
    + exists sc, rs. reflexivity.
    + exists (lit "0/0"), []. reflexivity.
Qed.

(** C10. [evaluate_submission_ai] answers every input with a dictionary
    that has a score and a result list; with an empty API key, a raising
    call of the LLM, a reply without text, or a reply whose text is
    sanitized to nothing or does not parse, the dictionary is
    [{"score": "0/0", "results": []}]. *)
Theorem evaluate_submission_ai_total (rt : runtime) (calls : nat)
    (questions : list dict) (answers : dict) (api_key : str) :
  (api_key = []
   \/ generate_content rt calls = LlmRaises
   \/ generate_content rt calls = LlmText None
   \/ (exists content,
          generate_content rt calls = LlmText (Some content)
          /\ (clean_json_text content = []
              \/ loads rt (clean_json_text content) = None)) ->
   fst (evaluate_submission_ai rt calls questions answers api_key)
   = empty_evaluation)
  /\ (exists sc rs,
         field_get (lit "score")
           (fst (evaluate_submission_ai rt calls questions answers api_key))
         = Some (FScore sc)
         /\ field_get (lit "results")
              (fst (evaluate_submission_ai rt calls questions answers api_key))
            = Some (FResults rs)).
Proof.
  split.
  - intros H. unfold evaluate_submission_ai.
    destruct api_key as [|c k]; [reflexivity|].
    destruct H as [H | [H | [H | (content & H & Hc)]]].
    + discriminate H.
    + now rewrite H.
    + now rewrite H.
    + rewrite H. cbn [evaluate_reply].
      assert (E : loads rt (clean_json_text content) = None).
      { destruct Hc as [Hc|Hc]; [now rewrite Hc | exact Hc]. }
      now rewrite E.
  - destruct (evaluate_submission_ai_shape rt calls questions answers api_key)
      as (sc & rs & ->).
    exists sc, rs. split; reflexivity.
Qed.

Lemma evaluate_submission_ai_total_witness :
  fst (evaluate_submission_ai
         (constant_runtime (LlmText (Some (lit "Sorry, I cannot grade this.")))
                           (Some (results_document [entry_with 1 fone])) true)
         0 [] [] (lit "key"))
  = empty_evaluation.
Proof.
  apply (proj1 (evaluate_submission_ai_total _ 0 [] [] (lit "key"))).
  right. right. right.
  exists (lit "Sorry, I cannot grade this."). split; [reflexivity|].
  left. reflexivity.
Defined.

(** ** The reuse of an attempt *)

Lemma filter_map_length {A : Type} (P : A -> bool) (f : A -> A) (l : list A) :
  (forall b, In b l -> P (f b) = P b) ->
  List.length (filter P (map f l)) = List.length (filter P l).
Proof.
  induction l as [|b l IH]; intros H; [reflexivity|].
  cbn [map filter]. rewrite (H b) by now left.
  assert (E : List.length (filter P (map f l)) = List.length (filter P l))
    by (apply IH; intros x Hx; apply H; now right).
  destruct (P b); cbn [List.length]; now rewrite E.
Qed.

Lemma unique_key {A : Type} (key : A -> Z) (l : list A) (x y : A) :
  NoDup (map key l) -> In x l -> In y l -> key x = key y -> x = y.
Proof.
  induction l as [|b l IH]; intros Hnd Hx Hy Hk; [destruct Hx|].
  cbn [map] in Hnd. inversion Hnd as [|? ? Hnotin Hnd']; subst.
  destruct Hx as [->|Hx], Hy as [->|Hy].
  - reflexivity.
  - exfalso. apply Hnotin. rewrite Hk. now apply in_map.
  - exfalso. apply Hnotin. rewrite <- Hk. now apply in_map.
  - now apply IH.
Qed.

Lemma find_some_count {A : Type} (P : A -> bool) (l : list A) (x : A) :
  List.find P l = Some x -> (1 <= List.length (filter P l))%nat.
Proof.
  intros H. apply find_some in H as [Hin Hp].
  assert (Hf : In x (filter P l)) by (apply filter_In; now split).
  destruct (filter P l); [destruct Hf | simpl; lia].
Qed.

Lemma find_none_filter {A : Type} (P : A -> bool) (l : list A) :
  List.find P l = None -> filter P l = [].
Proof.
  induction l as [|b l IH]; cbn [List.find filter]; [reflexivity|].
  destruct (P b); [discriminate | exact IH].
Qed.

Section Reuse.

Variable rt : runtime.
Variable w : world.
Variables qid sid : Z.
Variable student : Student.
Variable quiz : SchoolQuiz.

(** The student exists and the quiz belongs to the student's classroom;
    the handler answers 404 otherwise. *)
Hypothesis student_found : find_student w sid = Some student.
Hypothesis quiz_found :
  find_quiz w qid (student_classroom_id student) = Some quiz.

Lemma quiz_found_id : (quiz_id quiz =? qid) = true.
Proof.
  pose proof quiz_found as Hq. unfold find_quiz in Hq.
  apply find_some in Hq as [_ Hq]. now apply andb_true_iff in Hq.
Qed.

Lemma generate_reuse (a : StudentAttempt) :
  existing_attempt w sid qid = Some a ->
  attempt_questions a <> [] ->
  generate_student_quiz rt w qid sid = (Ok (retrieved a), w).
Proof.
  intros He Hne. unfold generate_student_quiz.
  rewrite student_found, quiz_found, He.
  destruct (attempt_questions a) eqn:E; [now elim Hne|].
  unfold retrieved. now rewrite E.
Qed.

End Reuse.

(** C9. The handler does reuse an attempt whose answers are SQL NULL, but
    the attempt it writes itself has the answers [None], which the JSON
    column stores as the JSON value [null], and the query for an open
    attempt ([answers IS NULL]) does not find it. Two generate calls in a
    row on an empty table of attempts: the second call asks the LLM again,
    hands out other questions under another attempt id, and leaves two
    attempts without answers. *)
Theorem generate_student_quiz_second_attempt :
  let '(r1, w1) := generate_student_quiz rewording_runtime (world_with []) 9 4 in
  let '(r2, w2) := generate_student_quiz rewording_runtime w1 9 4 in
  (exists g1 g2,
      r1 = Ok g1 /\ r2 = Ok g2
      /\ gen_attempt_id g1 = 1 /\ gen_attempt_id g2 = 2
      /\ gen_questions g1 <> [] /\ gen_questions g2 <> gen_questions g1)
  /\ llm_calls w1 = 1%nat /\ llm_calls w2 = 2%nat
  /\ map attempt_id (student_attempts w1) = [1]
  /\ map attempt_id (student_attempts w2) = [1; 2]
  /\ Forall (fun a => attempt_student_id a = 4
                      /\ attempt_school_quiz_id a = 9
                      /\ column_value (attempt_answers a) = None)
            (student_attempts w2)
  /\ existing_attempt w1 4 9 = None
  /\ generate_student_quiz rewording_runtime sample_world 9 4
     = (Ok (retrieved sample_attempt), sample_world).
Proof.
  vm_compute. split.
  - eexists. eexists. repeat split; discriminate.
  - repeat split. repeat constructor.
Qed.

(** * Further properties *)

(** ** The sanitizer on wrapped text *)

Lemma find_absent_head (c : ascii) (p s : str) :
  ~ In c s -> find (c :: p) s = None.
Proof.
  induction s as [|x s IH]; intros H.
  - reflexivity.
  - cbn [find startswith].
    destruct (chr_eqb c x) eqn:E.
    + apply chr_eqb_eq in E. subst. exfalso. apply H. now left.
    + cbn [andb]. rewrite IH; [reflexivity|]. intros Hin. apply H. now right.
Qed.

Lemma lstrip_app_keep (pre : str) (c : ascii) (r : str) :
  is_space c = false ->
  exists pre', lstrip (pre ++ c :: r) = pre' ++ c :: r /\ incl pre' pre.
Proof.
  intros Hc. induction pre as [|x pre IH].
  - exists []. cbn [app lstrip]. rewrite Hc. split; [reflexivity|apply incl_refl].
  - cbn [app lstrip]. destruct (is_space x).
    + destruct IH as (pre' & E & Hi). exists pre'. split; [exact E|].
      now apply incl_tl.
    + exists (x :: pre). split; [reflexivity|apply incl_refl].
Qed.

Lemma rstrip_app_keep (y : str) (c : ascii) (suf : str) :
  is_space c = false ->
  exists suf', rstrip (y ++ c :: suf) = y ++ c :: suf' /\ incl suf' suf.
Proof.
  intros Hc. unfold rstrip.
  rewrite rev_app_distr. cbn [rev]. rewrite <- app_assoc. cbn [app].
  destruct (lstrip_app_keep (rev suf) c (rev y) Hc) as (s' & E & Hi).
  exists (rev s'). rewrite E, rev_app_distr. cbn [rev].
  rewrite rev_involutive, <- app_assoc. split; [reflexivity|].
  intros x Hx. apply in_rev in Hx. apply Hi in Hx. now apply in_rev.
Qed.

Lemma strip_wrapped (pre mid suf : str) (a b : ascii) :
  is_space a = false -> is_space b = false ->
  exists pre' suf',
    strip (pre ++ a :: mid ++ b :: suf) = pre' ++ a :: mid ++ b :: suf'
    /\ incl pre' pre /\ incl suf' suf.
Proof.
  intros Ha Hb. unfold strip.
  destruct (lstrip_app_keep pre a (mid ++ b :: suf) Ha) as (pre' & E & Hp).
  rewrite E.
  replace (pre' ++ a :: mid ++ b :: suf) with ((pre' ++ a :: mid) ++ b :: suf)
    by (rewrite <- app_assoc; reflexivity).
  destruct (rstrip_app_keep (pre' ++ a :: mid) b suf Hb) as (suf' & E' & Hs).
  exists pre', suf'. rewrite E', <- app_assoc. repeat split; assumption.
Qed.

Lemma find_chr_app (c : ascii) (pre r : str) :
  ~ In c pre -> find [c] (pre ++ c :: r) = Some (List.length pre).
Proof.
  induction pre as [|x pre IH]; intros H.
  - cbn [app find startswith]. now rewrite chr_eqb_refl.
  - cbn [app find startswith].
    destruct (chr_eqb c x) eqn:E.
    + apply chr_eqb_eq in E. subst. exfalso. apply H. now left.
    + cbn [andb]. rewrite IH; [reflexivity|]. intros Hin. apply H. now right.
Qed.

Lemma rfind_chr_absent (c : ascii) (s : str) : ~ In c s -> rfind_chr c s = None.
Proof.
  induction s as [|x s IH]; intros H; [reflexivity|].
  cbn [rfind_chr]. rewrite IH by (intros Hin; apply H; now right).
  destruct (chr_eqb x c) eqn:E; [|reflexivity].
  apply chr_eqb_eq in E. subst. exfalso. apply H. now left.
Qed.

Lemma rfind_chr_app (c : ascii) (y suf : str) :
  ~ In c suf -> rfind_chr c (y ++ c :: suf) = Some (List.length y).
Proof.
  intros H. induction y as [|x y IH].
  - cbn [app rfind_chr]. rewrite (rfind_chr_absent _ _ H).
    now rewrite chr_eqb_refl.
  - cbn [app rfind_chr]. now rewrite IH.
Qed.

Lemma slice_wrapped (pre mid suf : str) (a b : ascii) :
  slice (List.length pre) (List.length (pre ++ a :: mid) + 1)
        (pre ++ a :: mid ++ b :: suf)
  = a :: mid ++ [b].
Proof.
  unfold slice. rewrite skipn_app, skipn_all, Nat.sub_diag. cbn [app skipn].
  rewrite length_app. cbn [List.length].
  replace (List.length pre + S (List.length mid) + 1 - List.length pre)%nat
    with (S (List.length mid + 1)) by lia.
  cbn [firstn]. f_equal.
  replace (mid ++ b :: suf) with ((mid ++ [b]) ++ suf)
    by (rewrite <- app_assoc; reflexivity).
  rewrite firstn_app.
  replace (List.length mid + 1 - List.length (mid ++ [b]))%nat with 0%nat
    by (rewrite length_app; cbn [List.length]; lia).
  cbn [firstn]. rewrite app_nil_r. apply firstn_all2.
  rewrite length_app. cbn [List.length]. lia.
Qed.

Lemma unfence_plain (text : str) : ~ In backtick text -> unfence text = text.
Proof.
  intros H. unfold unfence, contains.
  change fence_json with (backtick :: lit "``json").
  change fence with (backtick :: lit "``").
  now rewrite !find_absent_head.
Qed.

(** The sanitizer on a body in braces, with prose around it and no
    backtick anywhere: the repairs of the body. *)
Lemma clean_json_text_wrapped (pre mid suf : str) :
  ~ In lbrace pre -> ~ In rbrace suf ->
  ~ In backtick (pre ++ lbrace :: mid ++ rbrace :: suf) ->
  clean_json_text (pre ++ lbrace :: mid ++ rbrace :: suf)
  = strip (repairs (lbrace :: mid ++ [rbrace])).
Proof.
  intros Hpre Hsuf Htick. unfold clean_json_text.
  destruct (strip_wrapped pre mid suf lbrace rbrace eq_refl eq_refl)
    as (pre1 & suf1 & E1 & Hp1 & Hs1).
  rewrite unfence_plain.
  2:{ intros Hin. apply Htick. now apply strip_incl in Hin. }
  rewrite E1.
  destruct (strip_wrapped pre1 mid suf1 lbrace rbrace eq_refl eq_refl)
    as (pre2 & suf2 & E2 & Hp2 & Hs2).
  rewrite E2.
  rewrite find_chr_app by (intros Hin; apply Hpre, Hp1, Hp2, Hin).
  replace (pre2 ++ lbrace :: mid ++ rbrace :: suf2)
    with ((pre2 ++ lbrace :: mid) ++ rbrace :: suf2)
    by (rewrite <- app_assoc; reflexivity).
  rewrite rfind_chr_app by (intros Hin; apply Hsuf, Hs1, Hs2, Hin).
  assert (Hlt : (List.length (pre2 ++ lbrace :: mid) <? List.length pre2)%nat
                = false).
  { apply Nat.ltb_ge. rewrite length_app. lia. }
  rewrite Hlt, <- app_assoc. cbn [app].
  rewrite slice_wrapped. reflexivity.
Qed.

(** X1. Prose before and after a body in braces does not change what the
    sanitizer returns: for a text without backticks, with no opening brace
    before the body and no closing brace after it, the result is the result
    for the body alone. *)
Theorem clean_json_text_ignores_prose (pre mid suf : str) :
  ~ In lbrace pre -> ~ In rbrace suf ->
  ~ In backtick (pre ++ lbrace :: mid ++ rbrace :: suf) ->
  clean_json_text (pre ++ lbrace :: mid ++ rbrace :: suf)
  = clean_json_text (lbrace :: mid ++ [rbrace]).
Proof.
  intros Hpre Hsuf Htick.
  rewrite (clean_json_text_wrapped pre mid suf Hpre Hsuf Htick).
  symmetry. apply (clean_json_text_wrapped [] mid []).
  - intros [].
  - intros [].
  - intros Hin. apply Htick. apply in_or_app. right.
    cbn [app] in Hin. destruct Hin as [Hin|Hin]; [now left|right].
    apply in_app_or in Hin. apply in_or_app.
    destruct Hin as [Hin|Hin]; [now left|right].
    destruct Hin as [Hin|[]]. now left.
Qed.

(** A character that a closed text does not hold. *)
Ltac absent_chr :=
  let H := fresh in
  intros H; vm_compute in H;
  repeat (destruct H as [H|H]; [discriminate H|]); exact H.

Lemma clean_json_text_ignores_prose_witness :
  clean_json_text
    (lit "Sure! Here is your quiz: " ++ lbrace :: lit " 'id': 1, 'ok': True, "
         ++ rbrace :: lit " Good luck.")
  = clean_json_text (lbrace :: lit " 'id': 1, 'ok': True, " ++ [rbrace]).
Proof.
  apply clean_json_text_ignores_prose; absent_chr.
Defined.

Lemma find_chr_some (c : ascii) (s : str) :
  forall i, find [c] s = Some i -> exists r, skipn i s = c :: r.
Proof.
  induction s as [|x s IH]; intros i; cbn [find startswith].
  - discriminate.
  - destruct (chr_eqb c x) eqn:E; cbn [andb].
    + intros H; injection H as <-. apply chr_eqb_eq in E. subst. now exists s.
    + destruct (find [c] s) as [j|]; [|discriminate].
      cbn [option_map]. intros H; injection H as <-.
      cbn [skipn]. now apply IH.
Qed.

Lemma find_chr_in (c : ascii) (s : str) :
  In c s -> exists i, find [c] s = Some i.
Proof.
  induction s as [|x s IH]; intros H; [destruct H|].
  cbn [find startswith]. destruct (chr_eqb c x) eqn:E; cbn [andb].
  - now exists 0%nat.
  - destruct H as [->|H]; [now rewrite chr_eqb_refl in E|].
    destruct (IH H) as [i ->]. now exists (S i).
Qed.

Lemma re_sub_head (m : matcher) (c : ascii) (r : str) :
  m (c :: r) = None -> re_sub m (c :: r) = c :: re_sub m r.
Proof. intros H. now rewrite re_sub_cons, H. Qed.

Lemma repairs_brace (r : str) : exists r', repairs (lbrace :: r) = lbrace :: r'.
Proof.
  unfold repairs, fix_literals, fix_comments, fix_trailing_commas.
  rewrite (re_sub_head m_trailing_comma) by reflexivity.
  rewrite (re_sub_head m_comment)
    by (destruct (re_sub m_trailing_comma r); reflexivity).
  rewrite (re_sub_head m_none) by reflexivity.
  rewrite (re_sub_head m_true) by reflexivity.
  rewrite (re_sub_head m_false) by reflexivity.
  eauto.
Qed.

Lemma strip_brace (r : str) : exists r', strip (lbrace :: r) = lbrace :: r'.
Proof.
  unfold strip. cbn [lstrip].
  change (is_space lbrace) with false. cbv iota.
  destruct (rstrip_app_keep [] lbrace r eq_refl) as (r' & E & _).
  exists r'. exact E.
Qed.

(** X2. When the text left after the fences are taken off holds an opening
    brace, the sanitizer does not return the empty string, and what it
    returns starts with the opening brace. *)
Theorem clean_json_text_starts_with_brace (text : str) :
  In lbrace (strip (unfence (strip text))) ->
  exists r, clean_json_text text = lbrace :: r.
Proof.
  intros Hin. unfold clean_json_text.
  destruct (find_chr_in _ _ Hin) as [start Hstart]. rewrite Hstart.
  destruct (find_chr_some _ _ _ Hstart) as [r Hr].
  assert (Hbody : exists b,
    match rfind_chr rbrace (strip (unfence (strip text))) with
    | Some e =>
        if (e <? start)%nat
        then slice_from start (strip (unfence (strip text)))
               ++ newline :: lit "  ]" ++ newline :: lit "}"
        else slice start (e + 1) (strip (unfence (strip text)))
    | None =>
        slice_from start (strip (unfence (strip text)))
          ++ newline :: lit "  ]" ++ newline :: lit "}"
    end = lbrace :: b).
  { unfold slice_from, slice. rewrite Hr.
    destruct (rfind_chr rbrace (strip (unfence (strip text)))) as [e|].
    - destruct (e <? start)%nat eqn:E; [cbn [app]; eauto|].
      apply Nat.ltb_ge in E.
      replace (e + 1 - start)%nat with (S (e - start)) by lia.
      cbn [firstn]. eauto.
    - cbn [app]. eauto. }
  destruct Hbody as [b ->].
  destruct (repairs_brace b) as [b' Hb']. unfold repairs in Hb'. rewrite Hb'.
  apply strip_brace.
Qed.

Lemma clean_json_text_starts_with_brace_witness :
  exists r,
    clean_json_text (lit "```json" ++ newline :: lbrace :: lit " 'a': [1, 2 ```")
    = lbrace :: r.
Proof.
  apply clean_json_text_starts_with_brace. vm_compute. tauto.
Defined.

(** ** Model names *)

Lemma find_cons (p : str) (c : ascii) (s : str) :
  find p (c :: s)
  = if startswith p (c :: s) then Some 0%nat else option_map S (find p s).
Proof. reflexivity. Qed.

Lemma replace_absent (old new s : str) :
  find old s = None -> replace old new s = s.
Proof.
  unfold replace. induction s as [|c s IH]; intros H; [reflexivity|].
  rewrite re_sub_cons. unfold m_literal at 1.
  rewrite find_cons in H.
  destruct (startswith old (c :: s)); [discriminate|].
  destruct (find old s); [discriminate|].
  now rewrite IH.
Qed.

Lemma startswith_app (p s : str) : startswith p (p ++ s) = true.
Proof.
  induction p as [|c p IH]; [reflexivity|].
  cbn [app startswith]. now rewrite chr_eqb_refl.
Qed.

(** X3. [get_gemini_model_name] takes the prefix [models/] off a model name
    and leaves a name without [models/] as it is. *)
Theorem get_gemini_model_name_prefix (name : str) :
  contains (lit "models/") name = false ->
  get_gemini_model_name name = name
  /\ get_gemini_model_name (lit "models/" ++ name) = name.
Proof.
  unfold contains. intros H.
  assert (Hnone : find (lit "models/") name = None)
    by (destruct (find (lit "models/") name); [discriminate|reflexivity]).
  unfold get_gemini_model_name. split.
  - now apply replace_absent.
  - unfold replace.
    change (lit "models/" ++ name)
      with ("m"%char :: lit "odels/" ++ name).
    rewrite re_sub_cons. unfold m_literal at 1.
    change ("m"%char :: lit "odels/" ++ name) with (lit "models/" ++ name).
    rewrite startswith_app. cbn [app].
    change (skipn (List.length (lit "models/") - 1) (lit "odels/" ++ name))
      with name.
    now apply replace_absent.
Qed.

Lemma get_gemini_model_name_prefix_witness :
  get_gemini_model_name (lit "gemini-3-flash-preview")
  = lit "gemini-3-flash-preview"
  /\ get_gemini_model_name (lit "models/" ++ lit "gemini-3-flash-preview")
     = lit "gemini-3-flash-preview".
Proof. apply get_gemini_model_name_prefix. reflexivity. Defined.

Lemma get_actual_model_id_cases (model_name : str) :
  (contains (lit "/") model_name = true
   /\ contains (lit ":") model_name = true
   /\ get_actual_model_id model_name = model_name)
  \/ In (get_actual_model_id model_name)
        (default_model :: map snd model_mapping).
Proof.
  unfold get_actual_model_id.
  destruct (contains (lit "/") model_name && contains (lit ":") model_name)
    eqn:E.
  - left. apply andb_true_iff in E as [E1 E2]. now repeat split.
  - right. unfold lookup_model, model_mapping.
    repeat match goal with
           | |- context [if contains ?k ?c then _ else _] =>
               destruct (contains k c)
           end; cbn [map snd In]; tauto.
Qed.

(** X4. [get_actual_model_id] always answers with a model id that holds a
    slash and a colon, and such an id is answered with itself: mapping a
    name twice gives what mapping it once gives. *)
Theorem get_actual_model_id_format (model_name : str) :
  contains (lit "/") (get_actual_model_id model_name) = true
  /\ contains (lit ":") (get_actual_model_id model_name) = true
  /\ get_actual_model_id (get_actual_model_id model_name)
     = get_actual_model_id model_name.
Proof.
  destruct (get_actual_model_id_cases model_name) as [(H1 & H2 & ->) | Hin].
  - repeat split; try assumption.
    unfold get_actual_model_id. now rewrite H1, H2.
  - cbn [map snd model_mapping In] in Hin.
    repeat (destruct Hin as [<- | Hin]; [repeat split; vm_compute; reflexivity|]).
    destruct Hin.
Qed.

(** ** The question generator *)

Lemma sanitize_without_brace (text : str) :
  ~ In lbrace text -> clean_json_text text = [].
Proof.
  intros H. unfold clean_json_text.
  rewrite find_chr_absent; [reflexivity|].
  intros Hin. apply H. now apply strip_incl, unfence_incl, strip_incl in Hin.
Qed.

(** X5. [generate_quiz_questions_ai] answers with the empty question list,
    after one call of the LLM, when the call raises, when the reply has no
    text or no opening brace, when the sanitized reply does not parse, and
    when the parsed reply has no key [questions]. *)
Theorem generate_quiz_questions_ai_failure (rt : runtime)
    (loads_lenient : str -> option document) (calls : nat)
    (prompt api_key : str) :
  generate_content rt calls = LlmRaises
  \/ generate_content rt calls = LlmText None
  \/ (exists content,
        generate_content rt calls = LlmText (Some content)
        /\ (~ In lbrace content
            \/ loads_lenient (clean_json_text content) = None
            \/ exists data,
                loads_lenient (clean_json_text content) = Some data
                /\ doc_questions data = None)) ->
  generate_quiz_questions_ai rt loads_lenient calls prompt api_key
  = ([], S calls).
Proof.
  unfold generate_quiz_questions_ai.
  intros [H | [H | (content & H & Hc)]]; rewrite H; try reflexivity.
  destruct Hc as [Hc | [Hc | (data & Hc & Hq)]].
  - now rewrite sanitize_without_brace.
  - revert Hc. destruct (clean_json_text content); [reflexivity|].
    now intros ->.
  - revert Hc. destruct (clean_json_text content); [reflexivity|].
    intros ->. now rewrite Hq.
Qed.

Lemma generate_quiz_questions_ai_failure_witness :
  generate_quiz_questions_ai
    (constant_runtime (LlmText (Some (lit "I cannot help with that."))) None true)
    (fun _ => Some (questions_document [sample_question])) 0
    (lit "Generate a quiz") (lit "key")
  = ([], 1%nat).
Proof.
  apply generate_quiz_questions_ai_failure.
  right. right. exists (lit "I cannot help with that.").
  split; [reflexivity|]. left. absent_chr.
Defined.

(** ** The history of an attempt *)

Lemma dict_get_set_other (k k' : str) (v : pyval) (d : dict) :
  k <> k' -> dict_get k (dict_set k' v d) = dict_get k d.
Proof.
  intros Hk.
  assert (Hf : str_eqb k' k = false).
  { destruct (str_eqb k' k) eqn:E; [|reflexivity].
    apply str_eqb_eq in E. congruence. }
  induction d as [|[k0 v0] d IH]; cbn [dict_set dict_get].
  - now rewrite Hf.
  - destruct (str_eqb k0 k') eqn:E; cbn [dict_get].
    + apply str_eqb_eq in E. subst k0. now rewrite Hf.
    + destruct (str_eqb k0 k); [reflexivity|exact IH].
Qed.

Lemma q_map_get_from (questions : list Question) :
  forall i k,
    q_map_get k (q_map_from i questions)
    = if (i + 1 <=? k) && (k <=? i + Z.of_nat (List.length questions))
      then Some (q_text (nth (Z.to_nat (k - i - 1)) questions default_question))
      else None.
Proof.
  induction questions as [|q rest IH]; intros i k.
  - cbn [q_map_from q_map_get List.length].
    destruct (i + 1 <=? k) eqn:E1; [|reflexivity].
    destruct (k <=? i + Z.of_nat 0) eqn:E2; [|reflexivity].
    apply Z.leb_le in E1, E2. lia.
  - cbn [q_map_from q_map_get]. rewrite IH.
    change (List.length (q :: rest)) with (S (List.length rest)).
    rewrite Nat2Z.inj_succ.
    destruct (i + 1 =? k) eqn:E.
    + apply Z.eqb_eq in E. subst k.
      replace (i + 1 <=? i + 1) with true by (symmetry; apply Z.leb_le; lia).
      replace (i + 1 <=? i + Z.succ (Z.of_nat (List.length rest))) with true
        by (symmetry; apply Z.leb_le; lia).
      replace (i + 1 - i - 1) with 0 by lia. reflexivity.
    + apply Z.eqb_neq in E.
      destruct (i + 1 + 1 <=? k) eqn:E1.
      * apply Z.leb_le in E1.
        replace (i + 1 <=? k) with true by (symmetry; apply Z.leb_le; lia).
        replace (i + 1 + Z.of_nat (List.length rest))
          with (i + Z.succ (Z.of_nat (List.length rest))) by lia.
        destruct (k <=? i + Z.succ (Z.of_nat (List.length rest)));
          [|reflexivity].
        cbn [andb].
        replace (Z.to_nat (k - i - 1)) with (S (Z.to_nat (k - (i + 1) - 1)))
          by lia.
        reflexivity.
      * apply Z.leb_gt in E1.
        replace (i + 1 <=? k) with false by (symmetry; apply Z.leb_gt; lia).
        reflexivity.
Qed.

Lemma question_text_by_position (questions : list Question) (item : dict) :
  question_text questions item = text_at questions item.
Proof.
  unfold question_text, text_at, q_map.
  destruct (as_int (get (lit "id") item)) as [k|]; [|reflexivity].
  rewrite q_map_get_from. cbn [Z.add].
  replace (k - 0 - 1) with (k - 1) by lia.
  destruct ((1 <=? k) && (k <=? Z.of_nat (List.length questions))) eqn:E;
    [reflexivity|].
  destruct questions as [|q rest]; [reflexivity|].
  replace ((0 <=? k - 1) && (k - 1 <? Z.of_nat (List.length (q :: rest))))
    with false; [reflexivity|].
  symmetry. apply andb_false_iff. apply andb_false_iff in E.
  destruct E as [E|E]; [left; apply Z.leb_gt|right; apply Z.ltb_ge];
    [apply Z.leb_gt in E|apply Z.leb_gt in E]; lia.
Qed.

(** X6. The history of an attempt gives every feedback item the text of
    the question at the 1-based position the item's integer id names among
    the quiz's questions, and the text [Question text unavailable] for any
    other id; the second lookup of the source, by index, never decides.
    The item's other fields are kept and no item is dropped. *)
Theorem get_attempt_details_texts (questions : list Question)
    (feedback : list dict) (idx : nat) (item : dict) :
  nth_error feedback idx = Some item ->
  exists out,
    nth_error (get_attempt_details questions (Some feedback)) idx = Some out
    /\ dict_get (lit "question_text") out
       = Some (PStr (text_at questions item))
    /\ (forall k, k <> lit "question_text" -> dict_get k out = dict_get k item)
    /\ List.length (get_attempt_details questions (Some feedback))
       = List.length feedback.
Proof.
  intros Hnth.
  exists (dict_set (lit "question_text") (PStr (text_at questions item)) item).
  assert (E : get_attempt_details questions (Some feedback)
              = map (fun it => dict_set (lit "question_text")
                                        (PStr (question_text questions it)) it)
                    feedback)
    by (destruct feedback; reflexivity).
  rewrite E. repeat split.
  - rewrite nth_error_map, Hnth. cbn [option_map].
    now rewrite question_text_by_position.
  - apply dict_get_set_same.
  - intros k Hk. now apply dict_get_set_other.
  - apply length_map.
Qed.

Lemma get_attempt_details_texts_witness :
  exists out,
    nth_error (get_attempt_details [stored 101 "A"; stored 102 "B"]
                 (Some [[(lit "id", PInt 2); (lit "correct", PBool true)]])) 0
    = Some out
    /\ dict_get (lit "question_text") out = Some (PStr (lit "?"))
    /\ dict_get (lit "correct") out = Some (PBool true).
Proof.
  destruct (get_attempt_details_texts [stored 101 "A"; stored 102 "B"]
              [[(lit "id", PInt 2); (lit "correct", PBool true)]] 0
              [(lit "id", PInt 2); (lit "correct", PBool true)] eq_refl)
    as (out & Hout & Htext & Hkeep & _).
  exists out. repeat split; [exact Hout | exact Htext |].
  rewrite Hkeep; [reflexivity|discriminate].
Defined.

(** ** A student's average *)

Lemma average_loop_app (rt : runtime) (l1 l2 : list StudentAttempt) :
  forall t c,
    average_loop rt t c (l1 ++ l2)
    = average_loop rt (fst (average_loop rt t c l1))
                   (snd (average_loop rt t c l1)) l2.
Proof.
  induction l1 as [|a l1 IH]; intros t c; [reflexivity|].
  cbn [app average_loop]. destruct (attempt_percentage rt a); apply IH.
Qed.

Lemma average_loop_count (rt : runtime) (l : list StudentAttempt) :
  forall t c,
    snd (average_loop rt t c l) = (c + List.length (filter (usable rt) l))%nat.
Proof.
  induction l as [|a l IH]; intros t c; cbn [average_loop filter].
  - cbn [snd List.length]. lia.
  - unfold usable at 1. destruct (attempt_percentage rt a).
    + rewrite IH. cbn [List.length]. lia.
    + apply IH.
Qed.

Lemma calculate_student_average_loop (rt : runtime) (l : list StudentAttempt) :
  calculate_student_average rt l
  = match average_loop rt IntZero 0 l with
    | (Sum f, S n) => Float (round_float (fdiv f (float_of_count (S n))) 1)
    | (IntZero, S n) =>
        Float (round_float (fdiv fzero (float_of_count (S n))) 1)
    | (_, O) => IntegerZero
    end.
Proof. destruct l; reflexivity. Qed.

Lemma average_loop_percentages (rt : runtime) (l : list StudentAttempt) :
  forall t c,
    average_loop rt t c l
    = (fold_total t (percentages rt l),
       (c + List.length (percentages rt l))%nat).
Proof.
  induction l as [|a l IH]; intros t c; cbn [average_loop percentages].
  - cbn [fold_total List.length]. now rewrite Nat.add_0_r.
  - destruct (attempt_percentage rt a) as [x|].
    + rewrite IH. cbn [fold_total List.length]. f_equal. lia.
    + apply IH.
Qed.

(** X7. [calculate_student_average] is the float sum of what the usable
    attempts add (the ratio of the two parts of the score, times 100),
    divided by their number and rounded to one decimal, and the integer 0
    exactly when no attempt is usable; an attempt without a usable score
    (no score, not two parts around one slash, a part that is no number, a
    denominator that is not positive) is passed over. The scores 1/2 and
    3/4 average to 62.5 among attempts that are passed over, and twice 1/3
    to 33.3. *)
Theorem calculate_student_average_skips (rt : runtime)
    (before after : list StudentAttempt) (a : StudentAttempt) :
  attempt_percentage rt a = None ->
  calculate_student_average rt (before ++ a :: after)
  = calculate_student_average rt (before ++ after)
  /\ (forall l, calculate_student_average rt l = IntegerZero
                <-> filter (usable rt) l = [])
  /\ (forall l,
         calculate_student_average rt l
         = match percentages rt l with
           | [] => IntegerZero
           | x :: ps =>
               Float (round_float
                        (fdiv (float_sum (x :: ps))
                              (float_of_count (List.length (x :: ps)))) 1)
           end)
  /\ calculate_student_average decimal_runtime
       [graded_attempt "1/2"; unsubmitted; graded_attempt "3/4";
        graded_attempt "0/0"; graded_attempt "2"; graded_attempt "1/2/3";
        graded_attempt "one/2"]
     = Float (float_of_ratio false 125 2)
  /\ calculate_student_average decimal_runtime
       [graded_attempt "1/3"; graded_attempt "1/3"]
     = Float (float_of_ratio false 333 10).
Proof.
  intros Ha. split; [|split; [|split; [|split; reflexivity]]].
  - rewrite !calculate_student_average_loop, !average_loop_app.
    cbn [average_loop]. now rewrite Ha.
  - intros l. rewrite calculate_student_average_loop.
    pose proof (average_loop_count rt l IntZero 0) as Hc.
    destruct (average_loop rt IntZero 0 l) as [t c]. cbn [snd] in Hc.
    split.
    + intros H. destruct c as [|c].
      * destruct (filter (usable rt) l); [reflexivity|]. simpl in Hc. lia.
      * destruct t; discriminate.
    + intros H. rewrite H in Hc. cbn [List.length] in Hc.
      subst c. cbn [Nat.add]. now destruct t.
  - intros l.
    rewrite calculate_student_average_loop, average_loop_percentages.
    destruct (percentages rt l) as [|x ps]; [reflexivity|].
    cbn [fold_total total_add List.length Nat.add].
    rewrite fold_total_sum. reflexivity.
Qed.

Lemma calculate_student_average_skips_witness :
  calculate_student_average decimal_runtime
    ([graded_attempt "1/2"] ++ unsubmitted :: [graded_attempt "3/4"])
  = Float (float_of_ratio false 125 2).
Proof.
  refine (eq_trans
            (proj1 (calculate_student_average_skips decimal_runtime
                      [graded_attempt "1/2"] [graded_attempt "3/4"]
                      unsubmitted eq_refl)) _).
  reflexivity.
Defined.

(** ** What a generate call changes *)

(** The four ways a generate call ends: nothing done; the LLM asked in
    vain; the questions of the pending attempt filled in; an attempt
    added. *)
Lemma generate_student_quiz_cases (rt : runtime) (w w' : world) (qid sid : Z)
    (r : response generated) :
  generate_student_quiz rt w qid sid = (r, w') ->
  (w' = w
   /\ (is_error r = true
       \/ exists a, existing_attempt w sid qid = Some a))
  \/ (w' = with_attempts w (student_attempts w) (S (llm_calls w))
      /\ is_error r = true)
  \/ (exists a qs,
         existing_attempt w sid qid = Some a
         /\ w' = with_attempts w
                   (update_attempt (set_questions a qs) (student_attempts w))
                   (S (llm_calls w))
         /\ is_error r = false)
  \/ (exists qs,
         existing_attempt w sid qid = None
         /\ w' = with_attempts w
                   (student_attempts w ++ [new_attempt w sid qid qs])
                   (S (llm_calls w))
         /\ is_error r = false).
Proof.
  unfold generate_student_quiz.
  destruct (find_student w sid) as [student|];
    [|intros H; injection H as <- <-; left; split; [reflexivity|now left]].
  destruct (find_quiz w qid (student_classroom_id student)) as [quiz|] eqn:Hq;
    [|intros H; injection H as <- <-; left; split; [reflexivity|now left]].
  assert (Hqid : quiz_id quiz = qid).
  { unfold find_quiz in Hq. apply find_some in Hq as [_ Hq].
    apply andb_true_iff in Hq as [Hq _]. now apply Z.eqb_eq. }
  destruct (existing_attempt w sid qid) as [a|] eqn:He.
  - destruct (attempt_questions a) as [|q0 qs0].
    + destruct (generate_reply rt (generate_content rt (llm_calls w)))
        as [[qs|]|]; intros H; injection H as <- <-.
      * right. right. left. exists a, qs. now repeat split.
      * right. left. now split.
      * right. left. now split.
    + intros H; injection H as <- <-. left. split; [reflexivity|].
      right. now exists a.
  - destruct (generate_reply rt (generate_content rt (llm_calls w)))
      as [[qs|]|]; intros H; injection H as <- <-.
    + right. right. right. exists qs. rewrite Hqid. now repeat split.
    + right. left. now split.
    + right. left. now split.
Qed.

(** X8. A generate call that ends in an error (404, 500, or an exception
    that escapes) leaves the table of attempts as it was; any generate
    call leaves the students and the quizzes as they were and asks the LLM
    at most once. *)
Theorem generate_student_quiz_error_keeps_tables (rt : runtime) (w w' : world)
    (qid sid : Z) (r : response generated) :
  generate_student_quiz rt w qid sid = (r, w') ->
  students w' = students w
  /\ school_quizzes w' = school_quizzes w
  /\ (llm_calls w' = llm_calls w \/ llm_calls w' = S (llm_calls w))
  /\ (is_error r = true -> student_attempts w' = student_attempts w).
Proof.
  intros H.
  destruct (generate_student_quiz_cases rt w w' qid sid r H)
    as [[-> _] | [[-> _] | [(a & qs & _ & -> & Hr) | (qs & _ & -> & Hr)]]];
    repeat split; auto; intros Hr'; congruence.
Qed.

Lemma generate_student_quiz_error_keeps_tables_witness :
  student_attempts
    (snd (generate_student_quiz
            (constant_runtime (LlmText (Some (lit "no quiz today"))) None true)
            (world_with [blank_attempt]) 9 4))
  = [blank_attempt].
Proof.
  refine (proj2 (proj2 (proj2
            (generate_student_quiz_error_keeps_tables
               (constant_runtime (LlmText (Some (lit "no quiz today"))) None true)
               (world_with [blank_attempt]) _ 9 4 _ _))) _).
  - apply surjective_pairing.
  - reflexivity.
Defined.

Lemma next_id_above (l : list StudentAttempt) (a : StudentAttempt) :
  In a l -> attempt_id a < next_id l.
Proof.
  unfold next_id. induction l as [|b l IH]; intros H; [destruct H|].
  cbn [fold_right]. destruct H as [->|H]; [lia|].
  specialize (IH H). lia.
Qed.

Lemma update_attempt_ids (a' : StudentAttempt) (l : list StudentAttempt) :
  map attempt_id (update_attempt a' l) = map attempt_id l.
Proof.
  unfold update_attempt. rewrite map_map. apply map_ext.
  intros b. destruct (attempt_id b =? attempt_id a') eqn:E; [|reflexivity].
  apply Z.eqb_eq in E. now symmetry.
Qed.

Lemma update_attempt_other (P : StudentAttempt -> bool)
    (a a' b : StudentAttempt) (l : list StudentAttempt) :
  NoDup (map attempt_id l) -> In a l -> attempt_id a' = attempt_id a ->
  In b l -> b <> a ->
  (if attempt_id b =? attempt_id a' then a' else b) = b.
Proof.
  intros Hnd Ha Hid Hb Hne.
  destruct (attempt_id b =? attempt_id a') eqn:E; [|reflexivity].
  apply Z.eqb_eq in E. exfalso. apply Hne.
  apply (unique_key attempt_id l); auto. congruence.
Qed.

(** X9. A generate call keeps the keys of the attempts distinct, and it
    keeps, as it is, every attempt that is not a pending attempt of the
    student on the quiz: submitted attempts and the attempts of other
    students or quizzes are never changed or removed. *)
Theorem generate_student_quiz_keeps_history (rt : runtime) (w w' : world)
    (qid sid : Z) (r : response generated) :
  unique_ids w ->
  generate_student_quiz rt w qid sid = (r, w') ->
  unique_ids w'
  /\ (forall b, In b (student_attempts w) ->
                open_attempt_of sid qid b = false ->
                In b (student_attempts w')).
Proof.
  unfold unique_ids. intros Hnd H.
  destruct (generate_student_quiz_cases rt w w' qid sid r H)
    as [[-> _] | [[-> _] | [(a & qs & He & -> & _) | (qs & _ & -> & _)]]];
    cbn [student_attempts with_attempts]; try (split; [exact Hnd|auto]).
  - split; [now rewrite update_attempt_ids|].
    intros b Hb Hopen. unfold existing_attempt in He.
    apply find_some in He as [Ha Hp].
    unfold update_attempt.
    rewrite <- (update_attempt_other (open_attempt_of sid qid) a
                  (set_questions a qs) b (student_attempts w) Hnd Ha eq_refl Hb)
      by congruence.
    now apply (in_map (fun b0 => if attempt_id b0 =? attempt_id (set_questions a qs)
                                 then set_questions a qs else b0)).
  - split.
    + rewrite map_app. cbn [map new_attempt attempt_id].
      apply NoDup_app; [exact Hnd|constructor; [intros []|constructor]|].
      intros x Hx [<-|[]].
      apply in_map_iff in Hx as (b & Hb & Hin).
      pose proof (next_id_above _ _ Hin). lia.
    + intros b Hb _. apply in_or_app. now left.
Qed.

Lemma generate_student_quiz_keeps_history_witness :
  In submitted_attempt
     (student_attempts
        (snd (generate_student_quiz
                (constant_runtime (LlmText (Some (lit "{}")))
                                  (Some (questions_document [sample_question]))
                                  true)
                (world_with [submitted_attempt]) 9 4))).
Proof.
  refine (proj2 (generate_student_quiz_keeps_history
                   (constant_runtime (LlmText (Some (lit "{}")))
                                     (Some (questions_document [sample_question]))
                                     true)
                   (world_with [submitted_attempt]) _ 9 4 _ _ _)
                submitted_attempt _ _).
  - repeat constructor. intros [].
  - apply surjective_pairing.
  - now left.
  - reflexivity.
Defined.

Lemma open_attempt_set_questions (sid qid : Z) (a : StudentAttempt)
    (qs : list dict) :
  open_attempt_of sid qid (set_questions a qs) = open_attempt_of sid qid a.
Proof. reflexivity. Qed.

Lemma update_attempt_filter (P : StudentAttempt -> bool) (a : StudentAttempt)
    (qs : list dict) (l : list StudentAttempt) :
  P (set_questions a qs) = P a ->
  NoDup (map attempt_id l) -> In a l ->
  List.length (filter P (update_attempt (set_questions a qs) l))
  = List.length (filter P l).
Proof.
  intros HP Hnd Ha. unfold update_attempt. apply filter_map_length.
  intros b Hb.
  destruct (attempt_id b =? attempt_id (set_questions a qs)) eqn:E;
    [|reflexivity].
  apply Z.eqb_eq in E.
  assert (b = a) by (apply (unique_key attempt_id l); auto).
  subst b. exact HP.
Qed.

Lemma open_attempt_new (w : world) (sid qid sid' qid' : Z) (qs : list dict) :
  open_attempt_of sid' qid' (new_attempt w sid qid qs) = false.
Proof. unfold open_attempt_of. cbn. apply andb_false_r. Qed.

(** X10. A generate call never changes the number of attempts that the
    query for an open attempt matches, of any student on any quiz: the
    attempt it adds holds the JSON value [null] for its answers, which the
    query does not match. The number of attempts without answers of the
    student on the quiz grows by one with every successful call that found
    no attempt to hand out or to fill, and is kept otherwise; for every
    other student or quiz it is kept. *)
Theorem generate_student_quiz_pending (rt : runtime) (w w' : world)
    (qid sid : Z) (r : response generated) :
  unique_ids w ->
  generate_student_quiz rt w qid sid = (r, w') ->
  (forall sid' qid', count_pending w' sid' qid' = count_pending w sid' qid')
  /\ count_unanswered w' sid qid
     = (count_unanswered w sid qid
        + (if is_error r then 0
           else match existing_attempt w sid qid with
                | Some _ => 0
                | None => 1
                end))%nat
  /\ (forall sid' qid',
         sid' <> sid \/ qid' <> qid ->
         count_unanswered w' sid' qid' = count_unanswered w sid' qid').
Proof.
  unfold unique_ids, count_pending, count_unanswered. intros Hnd H.
  destruct (generate_student_quiz_cases rt w w' qid sid r H)
    as [[-> Hr] | [[-> Hr] | [(a & qs & He & -> & Hr) | (qs & He & -> & Hr)]]];
    cbn [student_attempts with_attempts].
  - repeat split. destruct (is_error r); [lia|].
    destruct Hr as [Hr|[a ->]]; [discriminate|lia].
  - rewrite Hr. repeat split. lia.
  - rewrite Hr, He. unfold existing_attempt in He.
    apply find_some in He as [Ha _].
    repeat split; intros; rewrite update_attempt_filter; auto; lia.
  - rewrite Hr, He.
    repeat split; intros; rewrite filter_app, length_app; cbn [filter].
    + rewrite open_attempt_new. cbn [List.length]. lia.
    + cbn [new_attempt attempt_student_id attempt_school_quiz_id
             attempt_answers column_value unanswered].
      now rewrite !Z.eqb_refl.
    + cbn [new_attempt attempt_student_id attempt_school_quiz_id
             attempt_answers column_value unanswered].
      assert (E : (sid =? sid') && (qid =? qid') = false).
      { apply andb_false_iff.
        destruct H0 as [Hne|Hne]; [left|right]; apply Z.eqb_neq; congruence. }
      rewrite E. cbn [andb List.length]. lia.
Qed.

Lemma generate_student_quiz_pending_witness :
  count_unanswered
    (snd (generate_student_quiz rewording_runtime
            (snd (generate_student_quiz rewording_runtime
                    (world_with [submitted_attempt]) 9 4)) 9 4)) 4 9
  = 2%nat.
Proof.
  refine (eq_trans
            (proj1 (proj2 (generate_student_quiz_pending rewording_runtime
                      (snd (generate_student_quiz rewording_runtime
                              (world_with [submitted_attempt]) 9 4))
                      _ 9 4 _ _ _))) _).
  - repeat constructor; cbn; intuition discriminate.
  - apply surjective_pairing.
  - reflexivity.
Defined.

(** ** The entries of a graded response *)

Lemma score_entry_consistent (rt : runtime) (e e' : dict) (s : float) :
  score_entry rt e = Some (s, e') ->
  entry_consistent rt e' /\ scored_from (Obj e) e'.
Proof.
  unfold score_entry.
  assert (Hsc : lit "score" <> lit "correct") by discriminate.
  destruct (dict_get (lit "score") e) as [v|] eqn:Hv.
  - destruct (py_float rt v) as [s0|] eqn:Hf; [|discriminate].
    intros H; injection H as <- <-. split.
    + exists v, s0. repeat split; [|exact Hf|apply dict_get_set_same].
      now rewrite dict_get_set_other.
    + exists e. split; [reflexivity|]. intros k _ Hk.
      now apply dict_get_set_other.
  - intros H; injection H as <- <-.
    set (s0 := if truthy (get (lit "correct") e) then fone else fzero).
    split.
    + exists (PFloat s0), s0. repeat split; [|apply dict_get_set_same].
      rewrite dict_get_set_other by exact Hsc. apply dict_get_set_same.
    + exists e. split; [reflexivity|]. intros k Hk1 Hk2.
      now rewrite !dict_get_set_other.
Qed.

Lemma score_loop_consistent (rt : runtime) (items : list item) :
  forall t t' rs,
    score_loop rt t items = Some (t', rs) ->
    Forall (entry_consistent rt) rs /\ Forall2 scored_from items rs.
Proof.
  induction items as [|it items IH]; intros t t' rs; cbn [score_loop].
  - intros H; injection H as <- <-. split; constructor.
  - destruct it as [e|]; [|discriminate].
    destruct (score_entry rt e) as [[s e']|] eqn:He; [|discriminate].
    destruct (score_loop rt (Sum (total_add t s)) items) as [[t1 rs1]|] eqn:Hl;
      [|discriminate].
    intros H; injection H as <- <-.
    destruct (score_entry_consistent rt e e' s He) as [Hc Hs].
    destruct (IH _ _ _ Hl) as [Hcs Hss].
    split; constructor; assumption.
Qed.

Lemma score_entry_kept (rt : runtime) (e e' : dict) (s : float) :
  score_entry rt e = Some (s, e') -> score_kept (Obj e) e'.
Proof.
  unfold score_entry, score_kept. intros H. exists e. split; [reflexivity|].
  assert (Hsc : lit "score" <> lit "correct") by discriminate.
  destruct (dict_get (lit "score") e) as [v|] eqn:Hv.
  - destruct (py_float rt v); [|discriminate].
    injection H as _ <-. now rewrite dict_get_set_other.
  - injection H as _ <-. rewrite dict_get_set_other by exact Hsc.
    apply dict_get_set_same.
Qed.

Lemma score_loop_kept (rt : runtime) (items : list item) :
  forall t t' rs,
    score_loop rt t items = Some (t', rs) -> Forall2 score_kept items rs.
Proof.
  induction items as [|it items IH]; intros t t' rs; cbn [score_loop].
  - intros H; injection H as <- <-. constructor.
  - destruct it as [e|]; [|discriminate].
    destruct (score_entry rt e) as [[s e']|] eqn:He; [|discriminate].
    destruct (score_loop rt (Sum (total_add t s)) items) as [[t1 rs1]|] eqn:Hl;
      [|discriminate].
    intros H; injection H as <- <-.
    constructor; [exact (score_entry_kept rt e e' s He)|exact (IH _ _ _ Hl)].
Qed.

(** X11. Scoring a result sequence keeps every entry, in order, with all
    its fields but [score] and [correct]. A score the grader gave stays as
    it was given, whatever [float] reads, be it a number, a bool or a
    numeral string, and an entry without a score gets the float 1.0 or 0.0
    by the truth of its field [correct]. Every entry is left with a score
    that [float] reads and with [correct] set to whether that reading is
    at least 0.5. *)
Theorem score_results_consistent (rt : runtime) (items : list item)
    (sc : str) (rs : list dict) :
  score_results rt (RArray items) = Some (sc, rs) ->
  Forall (entry_consistent rt) rs
  /\ Forall2 scored_from items rs
  /\ Forall2 score_kept items rs.
Proof.
  unfold score_results. cbn [items_of].
  destruct (score_loop rt IntZero items) as [[t rs']|] eqn:Hl; [|discriminate].
  destruct (display_score rt t (List.length items)); [|discriminate].
  intros H; injection H as <- <-.
  destruct (score_loop_consistent rt items IntZero t rs' Hl) as [Hc Hs].
  repeat split; try assumption.
  exact (score_loop_kept rt items IntZero t rs' Hl).
Qed.

Lemma score_results_consistent_witness :
  Forall2 score_kept
          [Obj [(lit "id", PInt 1); (lit "score", PBool true)];
           Obj [(lit "id", PInt 2); (lit "correct", PStr (lit "yes"))]]
          [[(lit "id", PInt 1); (lit "score", PBool true);
            (lit "correct", PBool true)];
           [(lit "id", PInt 2); (lit "correct", PBool true);
            (lit "score", PFloat fone)]].
Proof.
  exact (proj2 (proj2 (score_results_consistent
                         (constant_runtime LlmRaises None true)
                         [Obj [(lit "id", PInt 1); (lit "score", PBool true)];
                          Obj [(lit "id", PInt 2);
                               (lit "correct", PStr (lit "yes"))]]
                         (lit "2/2") _ eq_refl))).
Defined.

Lemma at_least_half_score_of (b : bool) : at_least_half (score_of b) = b.
Proof. destruct b; reflexivity. Qed.

Lemma objective_entry_consistent (rt : runtime) (answers q : dict) :
  entry_consistent rt (objective_entry answers q).
Proof.
  exists (PFloat (score_of (objective_is_correct answers q))),
         (score_of (objective_is_correct answers q)).
  repeat split. cbn [py_float]. rewrite at_least_half_score_of. reflexivity.
Qed.

Lemma fallback_entry_consistent (rt : runtime) (answers : str_dict)
    (q : Question) :
  entry_consistent rt (fallback_entry answers q).
Proof.
  exists (PFloat (score_of (fallback_is_correct answers q))),
         (score_of (fallback_is_correct answers q)).
  repeat split. rewrite at_least_half_score_of. reflexivity.
Qed.

Lemma marked_correct_objective (answers q : dict) :
  marked_correct (objective_entry answers q) = objective_is_correct answers q.
Proof.
  change (marked_correct (objective_entry answers q))
    with (match Some (PBool (objective_is_correct answers q)) with
          | Some (PBool true) => true
          | _ => false
          end).
  now destruct (objective_is_correct answers q).
Qed.

Lemma filter_map_count {A B : Type} (P : B -> bool) (Q : A -> bool)
    (f : A -> B) (l : list A) :
  (forall x, P (f x) = Q x) ->
  List.length (filter P (map f l)) = List.length (filter Q l).
Proof.
  intros H. induction l as [|x l IH]; [reflexivity|].
  cbn [map filter]. rewrite H. destruct (Q x); cbn [List.length]; now rewrite IH.
Qed.

Lemma evaluate_reply_consistent (rt : runtime) (reply : llm_reply) (sc : str)
    (rs : list dict) :
  evaluate_reply rt reply = Some (sc, rs) -> Forall (entry_consistent rt) rs.
Proof.
  unfold evaluate_reply, score_results.
  destruct reply as [|[content|]]; try discriminate.
  destruct (loads rt (clean_json_text content)) as [doc|]; [|discriminate].
  destruct (items_of (doc_results doc)) as [items|]; [|discriminate].
  destruct (score_loop rt IntZero items) as [[t rs']|] eqn:Hl; [|discriminate].
  destruct (display_score rt t (List.length items)); [|discriminate].
  intros H; injection H as <- <-.
  now apply (score_loop_consistent rt items IntZero t).
Qed.

Lemma objective_entry_float_scored (answers q : dict) :
  float_scored (objective_entry answers q).
Proof. exists (objective_is_correct answers q). split; reflexivity. Qed.

(** X12. In every graded response of [submit_student_quiz] each entry has a
    score that [float] reads (on the path of the LLM a bool or a numeral
    string of the grader stays as it was given) and a [correct] field
    that says whether that reading is at least 0.5. For a quiz of an
    objective format the response has one entry per stored question, with
    the question's id; each entry has the float 1.0 and [correct] true, or
    the float 0.0 and [correct] false; and the score string is the number
    of entries marked correct over the number of entries. *)
Theorem submit_student_quiz_entries (rt : runtime) (calls calls' : nat)
    (quiz_format : str) (questions : list dict) (answers : dict) (g : graded) :
  submit_student_quiz rt calls quiz_format questions answers = (Ok g, calls') ->
  Forall (entry_consistent rt) (graded_feedback g)
  /\ (is_objective quiz_format = true ->
      ids_of (graded_feedback g) = map (get (lit "id")) questions
      /\ Forall float_scored (graded_feedback g)
      /\ graded_score g
         = count_score (count_correct marked_correct (graded_feedback g))
                       (List.length (graded_feedback g))).
Proof.
  unfold submit_student_quiz.
  destruct (is_objective quiz_format).
  - intros H; injection H as <- _.
    change (graded_feedback (graded_of (grade_objective questions answers)))
      with (map (objective_entry answers) questions).
    split; [|intros _; split; [|split]].
    + apply Forall_forall. intros e He.
      apply in_map_iff in He as (q & <- & _). apply objective_entry_consistent.
    + unfold ids_of. rewrite map_map. reflexivity.
    + apply Forall_forall. intros e He.
      apply in_map_iff in He as (q & <- & _).
      apply objective_entry_float_scored.
    + change (graded_score (graded_of (grade_objective questions answers)))
        with (count_score
                (count_correct (objective_is_correct answers) questions)
                (List.length questions)).
      unfold count_correct.
      rewrite (filter_map_count marked_correct (objective_is_correct answers))
        by apply marked_correct_objective.
      now rewrite length_map.
  - destruct (evaluate_reply rt (generate_content rt calls)) as [[sc rs]|] eqn:E;
      [|discriminate].
    intros H; injection H as <- _.
    split; [|discriminate].
    exact (evaluate_reply_consistent rt _ sc rs E).
Qed.

Lemma submit_student_quiz_entries_witness :
  graded_score
    (graded_of (grade_objective
                  [sample_question] [(lit "1", PStr (lit " 4 "))]))
  = lit "1/1".
Proof.
  refine (eq_trans
            (proj2 (proj2 (proj2 (submit_student_quiz_entries
                                    (constant_runtime LlmRaises None true) 0 0
                                    (lit "objective") [sample_question]
                                    [(lit "1", PStr (lit " 4 "))] _ eq_refl)
                                 eq_refl))) _).
  reflexivity.
Defined.

(** ** Correlation, again *)

Lemma dict_has_set_same (k : str) (v : pyval) (d : dict) :
  dict_has k (dict_set k v d) = true.
Proof. unfold dict_has. now rewrite dict_get_set_same. Qed.

Lemma dict_has_set_other (k k' : str) (v : pyval) (d : dict) :
  k <> k' -> dict_has k (dict_set k' v d) = dict_has k d.
Proof. intros H. unfold dict_has. now rewrite dict_get_set_other. Qed.

Lemma dict_set_twice (k : str) (v : pyval) (d : dict) :
  dict_set k v (dict_set k v d) = dict_set k v d.
Proof.
  induction d as [|[k0 v0] d IH]; cbn [dict_set].
  - now rewrite str_eqb_refl.
  - destruct (str_eqb k0 k) eqn:E; cbn [dict_set].
    + now rewrite str_eqb_refl.
    + now rewrite E, IH.
Qed.

(** The entry after the two fields were filled in, before the id is set. *)
Lemma correlate_entry_filled (questions : list Question) (answers : str_dict)
    (idx : nat) (entry : dict) (q : Question) :
  q_match questions idx entry = Some q ->
  exists filled,
    correlate_entry questions answers idx entry
    = dict_set (lit "id") (PInt (q_id q)) filled
    /\ dict_has (lit "user_answer") filled = true
    /\ dict_has (lit "correct_answer") filled = true
    /\ (forall k, k <> lit "user_answer" -> k <> lit "correct_answer" ->
                  dict_get k filled = dict_get k entry)
    /\ (forall v, dict_get (lit "user_answer") entry = Some v ->
                  dict_get (lit "user_answer") filled = Some v)
    /\ (forall v, dict_get (lit "correct_answer") entry = Some v ->
                  dict_get (lit "correct_answer") filled = Some v).
Proof.
  intros Hm. unfold correlate_entry. rewrite Hm.
  assert (Hne : lit "user_answer" <> lit "correct_answer") by discriminate.
  assert (Hne' : lit "correct_answer" <> lit "user_answer") by discriminate.
  set (e1 := if dict_has (lit "user_answer") entry then entry
             else dict_set (lit "user_answer")
                    (PStr (get_or_empty (str_of_Z (q_id q)) answers)) entry).
  assert (H1 : dict_has (lit "user_answer") e1 = true).
  { subst e1. destruct (dict_has (lit "user_answer") entry) eqn:E;
      [exact E|apply dict_has_set_same]. }
  assert (K1 : forall k, k <> lit "user_answer" ->
                         dict_get k e1 = dict_get k entry).
  { intros k Hk. subst e1. destruct (dict_has (lit "user_answer") entry);
      [reflexivity|now apply dict_get_set_other]. }
  assert (U1 : forall v, dict_get (lit "user_answer") entry = Some v ->
                         dict_get (lit "user_answer") e1 = Some v).
  { intros v Hv. subst e1. unfold dict_has. now rewrite Hv. }
  set (e2 := if dict_has (lit "correct_answer") e1 then e1
             else dict_set (lit "correct_answer")
                    (py_opt_str (q_correct_answer q)) e1).
  exists e2. split; [reflexivity|].
  assert (K2 : forall k, k <> lit "correct_answer" ->
                         dict_get k e2 = dict_get k e1).
  { intros k Hk. subst e2. destruct (dict_has (lit "correct_answer") e1);
      [reflexivity|now apply dict_get_set_other]. }
  repeat split.
  - unfold dict_has. rewrite K2 by exact Hne. exact H1.
  - subst e2. destruct (dict_has (lit "correct_answer") e1) eqn:E;
      [exact E|apply dict_has_set_same].
  - intros k Hk1 Hk2. rewrite K2 by exact Hk2. now apply K1.
  - intros v Hv. rewrite K2 by exact Hne. now apply U1.
  - intros v Hv. subst e2. unfold dict_has.
    rewrite (K1 _ Hne'), Hv. rewrite (K1 _ Hne'). exact Hv.
Qed.

(** X13. The correlation never changes a field of an entry other than
    [id], [user_answer] and [correct_answer] (the score, the [correct]
    mark and the feedback text stay), and it never replaces a
    [user_answer] or a [correct_answer] that the grader gave; a correlated
    entry has both fields. *)
Theorem correlation_keeps_fields (questions : list Question)
    (answers : str_dict) (feedback : list dict) (idx : nat) (entry : dict) :
  nth_error feedback idx = Some entry ->
  exists out,
    nth_error (correlate questions answers feedback) idx = Some out
    /\ (forall k, k <> lit "id" -> k <> lit "user_answer" ->
                  k <> lit "correct_answer" ->
                  dict_get k out = dict_get k entry)
    /\ (forall v, dict_get (lit "user_answer") entry = Some v ->
                  dict_get (lit "user_answer") out = Some v)
    /\ (forall v, dict_get (lit "correct_answer") entry = Some v ->
                  dict_get (lit "correct_answer") out = Some v)
    /\ (q_match questions idx entry <> None ->
        dict_has (lit "user_answer") out = true
        /\ dict_has (lit "correct_answer") out = true).
Proof.
  intros Hnth. exists (correlate_entry questions answers idx entry).
  split.
  { unfold correlate. now rewrite correlate_from_nth, Hnth. }
  destruct (q_match questions idx entry) as [q|] eqn:Hm.
  - destruct (correlate_entry_filled questions answers idx entry q Hm)
      as (filled & -> & Hu & Hc & Hk & Hua & Hca).
    assert (N1 : lit "user_answer" <> lit "id") by discriminate.
    assert (N2 : lit "correct_answer" <> lit "id") by discriminate.
    repeat split.
    + intros k K1 K2 K3. rewrite dict_get_set_other by exact K1. now apply Hk.
    + intros v Hv. rewrite dict_get_set_other by exact N1. now apply Hua.
    + intros v Hv. rewrite dict_get_set_other by exact N2. now apply Hca.
    + now rewrite dict_has_set_other.
    + now rewrite dict_has_set_other.
  - unfold correlate_entry. rewrite Hm.
    repeat split; auto; intros H; now elim H.
Qed.

Lemma correlation_keeps_fields_witness :
  exists out,
    nth_error (correlate [stored 101 "A"] [(lit "101", lit "b")]
                 [[(lit "id", PInt 1); (lit "score", PFloat fhalf);
                   (lit "user_answer", PStr (lit "B"))]]) 0
    = Some out
    /\ dict_get (lit "score") out = Some (PFloat fhalf)
    /\ dict_get (lit "user_answer") out = Some (PStr (lit "B")).
Proof.
  destruct (correlation_keeps_fields [stored 101 "A"] [(lit "101", lit "b")]
              [[(lit "id", PInt 1); (lit "score", PFloat fhalf);
                (lit "user_answer", PStr (lit "B"))]] 0
              [(lit "id", PInt 1); (lit "score", PFloat fhalf);
               (lit "user_answer", PStr (lit "B"))] eq_refl)
    as (out & Hout & Hk & Hu & _).
  exists out. repeat split.
  - exact Hout.
  - rewrite Hk; [reflexivity|discriminate|discriminate|discriminate].
  - now apply Hu.
Defined.

Lemma correlate_entry_idempotent (questions : list Question)
    (answers : str_dict) (idx : nat) (entry : dict) :
  correlate_entry questions answers idx
    (correlate_entry questions answers idx entry)
  = correlate_entry questions answers idx entry.
Proof.
  destruct (q_match questions idx entry) as [q|] eqn:Hm.
  - destruct (correlate_entry_filled questions answers idx entry q Hm)
      as (filled & -> & Hu & Hc & _).
    destruct (match_by_id_stored questions q (q_match_in _ _ _ _ Hm))
      as (q' & Hq' & Hid).
    unfold correlate_entry at 1. unfold q_match, get.
    rewrite dict_get_set_same. cbn [py_str]. rewrite Hq'.
    rewrite dict_has_set_other by discriminate. rewrite Hu.
    rewrite dict_has_set_other by discriminate. rewrite Hc.
    rewrite Hid. apply dict_set_twice.
  - unfold correlate_entry. rewrite Hm. now rewrite Hm.
Qed.

(** X14. The correlation is idempotent: a feedback list that was
    correlated to the stored questions is not changed by correlating it to
    them again. *)
Theorem correlate_idempotent (questions : list Question) (answers : str_dict)
    (feedback : list dict) :
  correlate questions answers (correlate questions answers feedback)
  = correlate questions answers feedback.
Proof.
  unfold correlate. generalize 0%nat.
  induction feedback as [|e rest IH]; intros k; cbn [correlate_from].
  - reflexivity.
  - now rewrite correlate_entry_idempotent, IH.
Qed.

(** ** Every submission of an individual *)

Lemma correlate_entry_other (questions : list Question) (answers : str_dict)
    (idx : nat) (entry : dict) (k : str) :
  k <> lit "id" -> k <> lit "user_answer" -> k <> lit "correct_answer" ->
  dict_get k (correlate_entry questions answers idx entry) = dict_get k entry.
Proof.
  intros K1 K2 K3.
  destruct (q_match questions idx entry) as [q|] eqn:Hm.
  - destruct (correlate_entry_filled questions answers idx entry q Hm)
      as (filled & -> & _ & _ & Hk & _).
    rewrite dict_get_set_other by exact K1. now apply Hk.
  - unfold correlate_entry. now rewrite Hm.
Qed.

Lemma correlate_entry_consistent (rt : runtime) (questions : list Question)
    (answers : str_dict) (idx : nat) (entry : dict) :
  entry_consistent rt entry ->
  entry_consistent rt (correlate_entry questions answers idx entry).
Proof.
  intros (v & s & Hv & Hf & Hc). exists v, s.
  rewrite !correlate_entry_other by discriminate. now repeat split.
Qed.

Lemma correlate_from_consistent (rt : runtime) (questions : list Question)
    (answers : str_dict) (feedback : list dict) :
  Forall (entry_consistent rt) feedback ->
  forall k, Forall (entry_consistent rt)
                   (correlate_from questions answers k feedback).
Proof.
  induction 1 as [|e rest He _ IH]; intros k; cbn [correlate_from];
    constructor; [now apply correlate_entry_consistent|apply IH].
Qed.

(** X15. For an attempt that is found with its quiz (the handler answers
    404 for an attempt that is not the caller's), the grading of
    [submit_individual_attempt] asks the LLM exactly once, also when no
    API key is stored, since a dummy key is passed on. Each entry of the
    graded response has a score that [float] reads and a [correct] field
    that says whether that reading is at least 0.5; the response of a quiz
    that has questions has feedback, whatever the LLM replied; and when
    the LLM gave no usable result, every entry has the float 1.0 and
    [correct] true, or the float 0.0 and [correct] false. *)
Theorem submit_individual_attempt_graded (rt : runtime) (calls calls' : nat)
    (questions : list Question) (api_key : option str) (answers : str_dict)
    (g : graded) :
  submit_individual_attempt rt calls questions api_key answers
  = (Ok g, calls') ->
  calls' = S calls
  /\ Forall (entry_consistent rt) (graded_feedback g)
  /\ (questions <> [] -> graded_feedback g <> [])
  /\ (evaluate_reply rt (generate_content rt calls) = None ->
      Forall float_scored (graded_feedback g)
      /\ List.length (graded_feedback g) = List.length questions).
Proof.
  unfold submit_individual_attempt.
  destruct (key_or_dummy_nonempty api_key) as (c & k & ->).
  unfold evaluate_submission_ai.
  assert (Hfb : forall sc,
             Ok {| graded_score := sc;
                   graded_feedback :=
                     correlate questions answers
                       (map (fallback_entry answers) questions) |}
             = Ok g ->
             Forall (entry_consistent rt) (graded_feedback g)
             /\ (questions <> [] -> graded_feedback g <> [])
             /\ Forall float_scored (graded_feedback g)
             /\ List.length (graded_feedback g) = List.length questions).
  { intros sc Hg. injection Hg as <-. cbn [graded_feedback]. unfold correlate.
    rewrite correlate_from_fallback by apply incl_refl.
    repeat split.
    - apply Forall_forall. intros e He.
      apply in_map_iff in He as (q & <- & _). apply fallback_entry_consistent.
    - intros Hne Hnil. apply Hne. now apply map_eq_nil in Hnil.
    - apply Forall_forall. intros e He.
      apply in_map_iff in He as (q & <- & _).
      exists (fallback_is_correct answers q). split; reflexivity.
    - apply length_map. }
  destruct (evaluate_reply rt (generate_content rt calls)) as [[sc rs]|] eqn:E.
  - destruct rs as [|r0 rs].
    + change (graded_feedback (graded_of (mk_evaluation sc []))) with (@nil dict).
      cbv iota.
      change (graded_feedback (graded_of (fallback_grading questions answers)))
        with (map (fallback_entry answers) questions).
      intros H. injection H as Hg <-.
      destruct (Hfb _ (f_equal Ok Hg)) as (H1 & H2 & _).
      repeat split; try assumption; discriminate.
    + change (graded_feedback (graded_of (mk_evaluation sc (r0 :: rs))))
        with (r0 :: rs).
      intros H. injection H as <- <-. cbn [graded_feedback].
      repeat split; try discriminate;
        try (intros _; unfold correlate; cbn [correlate_from]; discriminate).
      apply correlate_from_consistent.
      exact (evaluate_reply_consistent rt _ sc _ E).
  - change (graded_feedback (graded_of empty_evaluation)) with (@nil dict).
    cbv iota.
    change (graded_feedback (graded_of (fallback_grading questions answers)))
      with (map (fallback_entry answers) questions).
    intros H. injection H as Hg <-.
    destruct (Hfb _ (f_equal Ok Hg)) as (H1 & H2 & H3 & H4).
    repeat split; assumption.
Qed.

Lemma submit_individual_attempt_graded_witness :
  exists g,
    submit_individual_attempt (constant_runtime LlmRaises None true) 0
      [stored 101 "A"; stored 102 "B"] None [(lit "101", lit " a ")]
    = (Ok g, 1%nat)
    /\ Forall float_scored (graded_feedback g)
    /\ List.length (graded_feedback g) = 2%nat.
Proof.
  eexists. split; [reflexivity|].
  refine (proj2 (proj2 (proj2 (submit_individual_attempt_graded
                                 (constant_runtime LlmRaises None true) 0 _
                                 [stored 101 "A"; stored 102 "B"] None
                                 [(lit "101", lit " a ")] _ eq_refl))) _).
  reflexivity.
Defined.


(** ** A reply without a JSON object *)

(** X16. When no pending attempt with questions can be handed out again and
    the LLM's reply holds no opening brace, [generate_student_quiz] answers
    with the status 500 and stores nothing: the table of attempts is as it
    was, and one call of the LLM was made. *)
Theorem generate_student_quiz_no_object (rt : runtime) (w : world)
    (qid sid : Z) (student : Student) (quiz : SchoolQuiz) (content : str) :
  find_student w sid = Some student ->
  find_quiz w qid (student_classroom_id student) = Some quiz ->
  (forall a, existing_attempt w sid qid = Some a -> attempt_questions a = []) ->
  generate_content rt (llm_calls w) = LlmText (Some content) ->
  ~ In lbrace content ->
  generate_student_quiz rt w qid sid
  = (HTTPException 500,
     with_attempts w (student_attempts w) (S (llm_calls w))).
Proof.
  intros Hs Hq Hex Hreply Hno. unfold generate_student_quiz.
  rewrite Hs, Hq.
  assert (Hgen : generate_reply rt (generate_content rt (llm_calls w)) = None).
  { rewrite Hreply. cbn [generate_reply].
    now rewrite sanitize_without_brace. }
  rewrite Hgen.
  destruct (existing_attempt w sid qid) as [a|]; [|reflexivity].
  now rewrite (Hex a eq_refl).
Qed.

Lemma generate_student_quiz_no_object_witness :
  generate_student_quiz
    (constant_runtime (LlmText (Some (lit "no quiz today")))
                      (Some (questions_document [sample_question])) true)
    (world_with [blank_attempt]) 9 4
  = (HTTPException 500,
     with_attempts (world_with [blank_attempt]) [blank_attempt] 1).
Proof.
  apply (generate_student_quiz_no_object _ (world_with [blank_attempt]) 9 4
           {| student_id := 4; student_classroom_id := 2 |}
           {| quiz_id := 9; quiz_classroom_id := 2 |} (lit "no quiz today")).
  - reflexivity.
  - reflexivity.
  - intros a H. injection H as <-. reflexivity.
  - reflexivity.
  - absent_chr.
Defined.

(** ** The comparator *)

Lemma lower_chr_idempotent (c : ascii) : lower_chr (lower_chr c) = lower_chr c.
Proof. destruct c as [[] [] [] [] [] [] [] []]; reflexivity. Qed.

Lemma is_space_lower_chr (c : ascii) : is_space (lower_chr c) = is_space c.
Proof. destruct c as [[] [] [] [] [] [] [] []]; reflexivity. Qed.

Lemma lower_idempotent (s : str) : lower (lower s) = lower s.
Proof.
  unfold lower. rewrite map_map. apply map_ext. apply lower_chr_idempotent.
Qed.

Lemma lstrip_lower (s : str) : lstrip (lower s) = lower (lstrip s).
Proof.
  unfold lower. induction s as [|c s IH]; [reflexivity|].
  cbn [map lstrip]. rewrite is_space_lower_chr.
  destruct (is_space c); [exact IH|reflexivity].
Qed.

Lemma strip_lower (s : str) : strip (lower s) = lower (strip s).
Proof.
  unfold strip, rstrip. rewrite lstrip_lower. unfold lower at 1.
  rewrite <- map_rev. fold (lower (rev (lstrip s))).
  rewrite lstrip_lower. unfold lower. now rewrite map_rev.
Qed.

Lemma lstrip_idempotent (s : str) : lstrip (lstrip s) = lstrip s.
Proof.
  induction s as [|c s IH]; [reflexivity|].
  cbn [lstrip]. destruct (is_space c) eqn:E; [exact IH|].
  cbn [lstrip]. now rewrite E.
Qed.

Lemma rstrip_idempotent (s : str) : rstrip (rstrip s) = rstrip s.
Proof.
  unfold rstrip. now rewrite rev_involutive, lstrip_idempotent.
Qed.

Lemma lstrip_head (s : str) :
  lstrip s = [] \/ exists c r, lstrip s = c :: r /\ is_space c = false.
Proof.
  induction s as [|c s IH]; [now left|].
  cbn [lstrip]. destruct (is_space c) eqn:E; [exact IH|].
  right. now exists c, s.
Qed.

Lemma strip_idempotent (s : str) : strip (strip s) = strip s.
Proof.
  unfold strip.
  assert (H : lstrip (rstrip (lstrip s)) = rstrip (lstrip s)).
  { destruct (lstrip_head s) as [-> | (c & r & -> & Hc)]; [reflexivity|].
    destruct (rstrip_app_keep [] c r Hc) as (r' & E & _).
    cbn [app] in E. rewrite E. cbn [lstrip]. now rewrite Hc. }
  now rewrite H, rstrip_idempotent.
Qed.

Lemma str_eqb_sym (a b : str) : str_eqb a b = str_eqb b a.
Proof.
  destruct (str_eqb a b) eqn:E.
  - apply str_eqb_eq in E. subst. now rewrite str_eqb_refl.
  - destruct (str_eqb b a) eqn:E'; [|reflexivity].
    apply str_eqb_eq in E'. subst. now rewrite str_eqb_refl in E.
Qed.

(** X17. The verdict of the exact-match comparator does not depend on the
    order of its two answers, nor on trimming or lowering either of them
    first; and the classification of a quiz format as objective does not
    depend on the case of its letters. *)
Theorem same_answer_invariant (a b : str) :
  same_answer a b = same_answer b a
  /\ same_answer (strip a) b = same_answer a b
  /\ same_answer (lower a) b = same_answer a b
  /\ is_objective (lower a) = is_objective a.
Proof.
  unfold same_answer, is_objective. repeat split.
  - apply str_eqb_sym.
  - now rewrite strip_idempotent.
  - now rewrite strip_lower, lower_idempotent.
  - now rewrite lower_idempotent.
Qed.

(** *** Student ids *)

Lemma split_aux_nonempty (sep : str) (s : str) :
  forall skip cur, split_aux sep skip cur s <> [].
Proof.
  induction s as [|c s IH]; intros skip cur; simpl; [discriminate|].
  destruct skip; [|apply IH].
  destruct (startswith sep (c :: s)); [discriminate|apply IH].
Qed.

Lemma split_chr_cons (c x : ascii) (cur s : str) :
  split_aux [c] 0 cur (x :: s) =
  if Ascii.eqb c x then rev cur :: split_aux [c] 0 [] s
  else split_aux [c] 0 (x :: cur) s.
Proof. simpl. unfold chr_eqb. now destruct (Ascii.eqb c x). Qed.

Lemma split_chr_absent (c : ascii) (d : str) :
  ~ In c d -> forall cur, split_aux [c] 0 cur d = [rev cur ++ d].
Proof.
  induction d as [|x d IH]; intros Hn cur.
  - simpl. now rewrite app_nil_r.
  - rewrite split_chr_cons. destruct (Ascii.eqb c x) eqn:E.
    + apply Ascii.eqb_eq in E. subst. exfalso. apply Hn. now left.
    + rewrite IH by (intros H; apply Hn; now right).
      simpl. now rewrite <- app_assoc.
Qed.

Lemma last_cons_nonempty {A : Type} (x d : A) (l : list A) :
  l <> [] -> last (x :: l) d = last l d.
Proof. destruct l; [congruence|reflexivity]. Qed.

Lemma last_split_chr (c : ascii) (d : str) :
  ~ In c d ->
  forall a cur, last (split_aux [c] 0 cur (a ++ c :: d)) [] = d.
Proof.
  intros Hn. induction a as [|x a IH]; intros cur.
  - rewrite app_nil_l, split_chr_cons, Ascii.eqb_refl.
    rewrite split_chr_absent by assumption. reflexivity.
  - rewrite <- app_comm_cons, split_chr_cons. destruct (Ascii.eqb c x).
    + rewrite last_cons_nonempty by apply split_aux_nonempty. apply IH.
    + apply IH.
Qed.

Lemma uint_digits (d : Decimal.uint) :
  Forall is_digit (lit (NilEmpty.string_of_uint d)).
Proof.
  induction d; simpl; constructor; try assumption; discriminate.
Qed.

Lemma int_digits_cons (c : ascii) (v : Z) (r : str) (acc : Z) (prev : bool) :
  digit_value c = Some v ->
  int_digits acc prev (c :: r) = int_digits (10 * acc + v) true r.
Proof.
  intros H. cbn [int_digits]. destruct (chr_eqb c "_"%char) eqn:E.
  - apply Ascii.eqb_eq in E. subst c. discriminate.
  - now rewrite H.
Qed.

Lemma int_digits_uint (d : Decimal.uint) :
  forall acc prev,
    int_digits acc prev (lit (NilEmpty.string_of_uint d)) =
    match d with
    | Decimal.Nil => if prev then Some acc else None
    | _ => Some (uint_value d acc)
    end.
Proof.
  induction d; intros acc prev; try reflexivity;
    cbn [NilEmpty.string_of_uint lit list_ascii_of_string];
    (erewrite int_digits_cons by reflexivity);
    fold (lit (NilEmpty.string_of_uint d));
    rewrite IHd; cbn [uint_value]; rewrite ?Z.add_0_r;
    destruct d; reflexivity.
Qed.

Lemma uint_value_pos (d : Decimal.uint) :
  forall acc, uint_value d (Zpos acc) = Zpos (Pos.of_uint_acc d acc).
Proof.
  induction d; intros acc; cbn [uint_value Pos.of_uint_acc];
    try reflexivity; rewrite <- IHd; f_equal; lia.
Qed.

Lemma uint_value_zero (d : Decimal.uint) :
  uint_value d 0 = Z.of_N (Pos.of_uint d).
Proof.
  induction d; cbn [uint_value Pos.of_uint Z.of_N]; try reflexivity;
    try assumption; apply uint_value_pos.
Qed.

Lemma to_int_nonneg (z : Z) :
  0 <= z -> exists d, Z.to_int z = Decimal.Pos d /\ d <> Decimal.Nil
                      /\ Z.of_N (Pos.of_uint d) = z.
Proof.
  intros Hz. pose proof (DecimalZ.of_to z) as H.
  destruct z as [|p|p]; [| |lia].
  - exists (Decimal.D0 Decimal.Nil). repeat split. discriminate.
  - exists (Pos.to_uint p). repeat split.
    + intros E. pose proof (DecimalPos.Unsigned.of_to p) as Hp.
      rewrite E in Hp. discriminate.
    + exact H.
Qed.

Lemma str_of_Z_digits (z : Z) : 0 <= z -> Forall is_digit (str_of_Z z).
Proof.
  intros Hz. destruct (to_int_nonneg z Hz) as (d & E & _ & _).
  unfold str_of_Z. rewrite E. apply uint_digits.
Qed.

Lemma int_digits_str_of_Z (z : Z) :
  0 <= z -> int_digits 0 false (str_of_Z z) = Some z.
Proof.
  intros Hz. destruct (to_int_nonneg z Hz) as (d & E & Hd & Hv).
  unfold str_of_Z. rewrite E. cbn [NilEmpty.string_of_int].
  rewrite int_digits_uint, uint_value_zero, Hv. now destruct d.
Qed.

Lemma is_digit_plain (c : ascii) :
  is_digit c ->
  is_int_space c = false /\ chr_eqb c "+"%char = false
  /\ chr_eqb c dash = false /\ c <> dash.
Proof.
  intros H.
  destruct c as [[] [] [] [] [] [] [] []];
    try (exfalso; apply H; reflexivity);
    repeat split; discriminate.
Qed.

Lemma int_lstrip_plain (s : str) :
  Forall (fun c => is_int_space c = false) s -> int_lstrip s = s.
Proof. intros [|c r Hc _]; [reflexivity|]. simpl. now rewrite Hc. Qed.

Lemma int_strip_plain (s : str) :
  Forall (fun c => is_int_space c = false) s -> int_strip s = s.
Proof.
  intros H. unfold int_strip. rewrite (int_lstrip_plain s H).
  rewrite int_lstrip_plain by now apply Forall_rev.
  apply rev_involutive.
Qed.

Lemma pad_d_nonneg (width : nat) (z : Z) :
  0 <= z ->
  exists k, pad_d width z = repeat "0"%char k ++ str_of_Z z.
Proof.
  intros Hz. unfold pad_d. rewrite Z.abs_eq by assumption.
  destruct (Z.ltb_spec z 0); [lia|]. eauto.
Qed.

Lemma pad_d_digits (width : nat) (z : Z) :
  0 <= z -> Forall is_digit (pad_d width z).
Proof.
  intros Hz. destruct (pad_d_nonneg width z Hz) as [k ->].
  apply Forall_app. split; [|now apply str_of_Z_digits].
  induction k; simpl; constructor; [discriminate|assumption].
Qed.

Lemma int_digits_zeros (z : Z) (k : nat) :
  0 <= z ->
  forall prev, int_digits 0 prev (repeat "0"%char k ++ str_of_Z z) = Some z.
Proof.
  intros Hz. induction k as [|k IH]; intros prev.
  - destruct (to_int_nonneg z Hz) as (d & E & Hd & Hv).
    unfold str_of_Z. rewrite E. cbn [NilEmpty.string_of_int repeat app].
    rewrite int_digits_uint, uint_value_zero, Hv. now destruct d.
  - cbn [repeat app]. rewrite (int_digits_cons _ 0) by reflexivity.
    apply IH.
Qed.

Lemma int_of_str_pad_d (width : nat) (z : Z) :
  0 <= z -> int_of_str (pad_d width z) = Some z.
Proof.
  intros Hz. pose proof (pad_d_digits width z Hz) as Hd.
  unfold int_of_str. rewrite int_strip_plain.
  2:{ eapply Forall_impl; [|exact Hd]. intros c Hc.
      now apply is_digit_plain. }
  destruct (pad_d_nonneg width z Hz) as [k E].
  pose proof (int_digits_zeros z k Hz false) as Hv. rewrite <- E in Hv.
  destruct (pad_d width z) as [|c r]; [discriminate|].
  apply Forall_inv in Hd. apply is_digit_plain in Hd.
  destruct Hd as (_ & -> & -> & _). exact Hv.
Qed.

Lemma last_part_generate_student_id (year school_id student_count : Z) :
  0 <= student_count ->
  last_part (generate_student_id year school_id student_count) =
  pad_d 5 student_count.
Proof.
  intros Hc. unfold last_part, split, generate_student_id.
  replace (lit "STU-" ++ str_of_Z year ++ dash :: pad_d 3 school_id
             ++ dash :: pad_d 5 student_count)
    with ((lit "STU-" ++ str_of_Z year ++ dash :: pad_d 3 school_id)
            ++ dash :: pad_d 5 student_count).
  - apply last_split_chr. intros Hin.
    pose proof (pad_d_digits 5 student_count Hc) as Hd.
    rewrite Forall_forall in Hd. apply Hd in Hin.
    apply is_digit_plain in Hin. now destruct Hin as (_ & _ & _ & Hne).
  - rewrite <- !app_assoc. reflexivity.
Qed.

Lemma max_suffix_from_le (existing : list str) :
  forall m, m <= max_suffix_from m existing.
Proof.
  induction existing as [|e l IH]; intros m; simpl; [lia|].
  destruct (int_of_str (last_part e)) as [n|].
  - specialize (IH (Z.max m n)). lia.
  - apply IH.
Qed.

Lemma max_suffix_from_bound (existing : list str) (e : str) (n : Z) :
  In e existing -> int_of_str (last_part e) = Some n ->
  forall m, n <= max_suffix_from m existing.
Proof.
  intros Hin Hn. induction existing as [|x l IH]; [easy|]. intros m.
  simpl. destruct Hin as [->|Hin].
  - rewrite Hn. pose proof (max_suffix_from_le l (Z.max m n)). lia.
  - destruct (int_of_str (last_part x)); now apply IH.
Qed.

Lemma assign_ids_in {A : Type} (clock : nat -> Z) (school_id m : Z)
    (students : list A) (id : str) :
  forall idx,
    In id (map snd (assign_ids clock school_id m idx students)) ->
    exists i, (idx <= i)%nat
              /\ id = generate_student_id (clock i) school_id
                        (m + Z.of_nat i + 1).
Proof.
  induction students as [|st l IH]; intros idx Hin; [easy|].
  simpl in Hin. destruct Hin as [<-|Hin].
  - exists idx. split; [lia|reflexivity].
  - destruct (IH _ Hin) as (i & Hi & ->). exists i. split; [lia|reflexivity].
Qed.

Lemma generate_student_id_suffix (y1 y2 s1 s2 c1 c2 : Z) :
  0 <= c1 -> 0 <= c2 ->
  generate_student_id y1 s1 c1 = generate_student_id y2 s2 c2 -> c1 = c2.
Proof.
  intros H1 H2 E. apply (f_equal (fun s => int_of_str (last_part s))) in E.
  rewrite !last_part_generate_student_id, !int_of_str_pad_d in E
    by assumption.
  congruence.
Qed.

(** X18. The number [bulk_import_students] reads back from a student id is
    the count the id was generated from, for every count that is not
    negative: the last part of the id, after the last dash, is a numeral of
    that count, whatever the year and the school and however many digits
    the count has. *)
Theorem generate_student_id_round_trip (year school_id student_count : Z) :
  0 <= student_count ->
  int_of_str (last_part (generate_student_id year school_id student_count))
  = Some student_count.
Proof.
  intros Hc. rewrite last_part_generate_student_id by assumption.
  now apply int_of_str_pad_d.
Qed.

Lemma generate_student_id_round_trip_witness :
  int_of_str (last_part (generate_student_id 2024 1 123)) = Some 123.
Proof. apply (generate_student_id_round_trip 2024 1 123). lia. Defined.

(** X19. [bulk_import_students] gives every imported student an id, in the
    order of the request; the new ids differ from one another, and none of
    them is an id the query for the existing ids returned, whatever these
    are and whatever the clock says during the import. *)
Theorem bulk_import_students_fresh {A : Type} (clock : nat -> Z)
    (school_id : Z) (existing : list str) (students : list A) :
  let created := bulk_import_students clock school_id existing students in
  map fst created = students
  /\ NoDup (map snd created)
  /\ forall id, In id (map snd created) -> ~ In id existing.
Proof.
  unfold bulk_import_students.
  pose proof (max_suffix_from_le existing 0) as Hm.
  set (m := max_suffix_from 0 existing) in *.
  cbv zeta. split; [|split].
  - generalize 0%nat. induction students as [|st l IH]; intros idx;
      simpl; [reflexivity|]. now rewrite IH.
  - generalize 0%nat. induction students as [|st l IH]; intros idx;
      simpl; constructor; [|apply IH].
    intros Hin. apply assign_ids_in in Hin. destruct Hin as (i & Hi & E).
    apply generate_student_id_suffix in E; lia.
  - intros id Hin Hex. apply assign_ids_in in Hin.
    destruct Hin as (i & _ & ->).
    assert (Hc : 0 <= m + Z.of_nat i + 1) by lia.
    pose proof (last_part_generate_student_id (clock i) school_id _ Hc)
      as Hl.
    pose proof (int_of_str_pad_d 5 _ Hc) as Hp. rewrite <- Hl in Hp.
    pose proof (max_suffix_from_bound existing _ _ Hex Hp 0) as Hb.
    fold m in Hb. lia.
Qed.

(** *** The lists of quizzes *)

Lemma generate_student_quiz_stored (rt : runtime) (w w' : world) (qid sid : Z)
    (g : generated) :
  generate_student_quiz rt w qid sid = (Ok g, w') -> names_attempt w' sid qid g.
Proof.
  unfold generate_student_quiz, names_attempt.
  destruct (find_student w sid) as [student|]; [|discriminate].
  destruct (find_quiz w qid (student_classroom_id student)) as [quiz|] eqn:Hq;
    [|discriminate].
  assert (Hqid : quiz_id quiz = qid).
  { unfold find_quiz in Hq. apply find_some in Hq as [_ Hq].
    apply andb_true_iff in Hq as [Hq _]. now apply Z.eqb_eq. }
  destruct (existing_attempt w sid qid) as [a|] eqn:He.
  - unfold existing_attempt in He. apply find_some in He as [Ha Hp].
    unfold open_attempt_of in Hp.
    apply andb_true_iff in Hp as [Hp _]. apply andb_true_iff in Hp as [Hs Hk].
    apply Z.eqb_eq in Hs, Hk.
    destruct (attempt_questions a) as [|q0 qs0] eqn:Hqs.
    + destruct (generate_reply rt (generate_content rt (llm_calls w)))
        as [[qs|]|]; intros H; try discriminate; injection H as <- <-.
      exists (set_questions a qs). cbn. repeat split; try assumption.
      unfold update_attempt. apply in_map_iff. exists a.
      split; [|exact Ha]. cbn [attempt_id set_questions].
      now rewrite Z.eqb_refl.
    + intros H; injection H as <- <-. exists a. cbn. now repeat split.
  - destruct (generate_reply rt (generate_content rt (llm_calls w)))
      as [[qs|]|]; intros H; try discriminate; injection H as <- <-.
    eexists. cbn. split; [apply in_or_app; right; left; reflexivity|].
    cbn. now repeat split.
Qed.

Lemma attempts_map_from_app (l1 l2 : list StudentAttempt) :
  forall m, attempts_map_from m (l1 ++ l2)
            = attempts_map_from (attempts_map_from m l1) l2.
Proof.
  induction l1 as [|a l1 IH]; intros m; simpl; [reflexivity|].
  destruct (attempt_score a) as [[|c s]|]; apply IH.
Qed.

Lemma attempts_map_from_map (sid : Z) (f : StudentAttempt -> StudentAttempt)
    (l : list StudentAttempt) :
  (forall b, In b l ->
             attempt_student_id (f b) = attempt_student_id b
             /\ attempt_school_quiz_id (f b) = attempt_school_quiz_id b
             /\ attempt_score (f b) = attempt_score b) ->
  forall m,
    attempts_map_from m (filter (fun a => attempt_student_id a =? sid) (map f l))
    = attempts_map_from m (filter (fun a => attempt_student_id a =? sid) l).
Proof.
  induction l as [|b l IH]; intros Hf m; [reflexivity|].
  destruct (Hf b (or_introl eq_refl)) as (Hs & Hq & Hc).
  cbn [map filter]. rewrite Hs.
  destruct (attempt_student_id b =? sid).
  - cbn [attempts_map_from]. rewrite Hc, Hq.
    destruct (attempt_score b) as [[|c s]|];
      apply IH; intros x Hx; apply Hf; now right.
  - apply IH. intros x Hx. apply Hf. now right.
Qed.

Lemma generate_student_quiz_scores (rt : runtime) (w w' : world) (qid sid : Z)
    (r : response generated) :
  unique_ids w ->
  generate_student_quiz rt w qid sid = (r, w') ->
  students w' = students w
  /\ school_quizzes w' = school_quizzes w
  /\ forall sid', attempts_map_from [] (attempts_of w' sid')
                  = attempts_map_from [] (attempts_of w sid').
Proof.
  unfold unique_ids, attempts_of. intros Hnd H.
  destruct (generate_student_quiz_cases rt w w' qid sid r H)
    as [[-> _] | [[-> _] | [(a & qs & He & -> & _) | (qs & _ & -> & _)]]];
    cbn [students school_quizzes student_attempts with_attempts];
    repeat split; intros sid'.
  - unfold existing_attempt in He. apply find_some in He as [Ha _].
    unfold update_attempt. apply attempts_map_from_map. intros b Hb.
    destruct (attempt_id b =? attempt_id (set_questions a qs)) eqn:E;
      [|now repeat split].
    apply Z.eqb_eq in E.
    assert (b = a) by (apply (unique_key attempt_id (student_attempts w)); auto).
    subst b. now repeat split.
  - rewrite filter_app, attempts_map_from_app. cbn [filter new_attempt attempt_student_id].
    destruct (sid =? sid'); reflexivity.
Qed.

(** X20. The attempt id a successful generate call returns is the key of a
    stored attempt of that student on that quiz, holding the questions
    returned; and from then on the school's list of the student's undone
    quizzes does not hold the quiz, although nothing was submitted. *)
Theorem generate_student_quiz_attempted (rt : runtime) (w w' : world)
    (qid sid : Z) (g : generated) :
  generate_student_quiz rt w qid sid = (Ok g, w') ->
  names_attempt w' sid qid g
  /\ forall of_school undone,
       get_student_attempts_school of_school w' sid = Ok undone ->
       Forall (fun q => quiz_id q <> qid) undone.
Proof.
  intros H. pose proof (generate_student_quiz_stored rt w w' qid sid g H) as Hn.
  split; [exact Hn|]. intros of_school undone.
  unfold get_student_attempts_school.
  destruct (List.find _ (students w')) as [student|]; [|discriminate].
  intros E. injection E as <-. apply Forall_forall. intros q Hq Hid.
  apply filter_In in Hq as [_ Hq]. apply negb_true_iff in Hq.
  destruct Hn as (a & Ha & _ & Hs & Hk & _).
  assert (Hex : existsb (Z.eqb (quiz_id q))
                  (map attempt_school_quiz_id (attempts_of w' sid)) = true).
  { apply existsb_exists. exists qid. split; [|now apply Z.eqb_eq].
    rewrite <- Hk. apply in_map. unfold attempts_of. apply filter_In.
    split; [exact Ha|now apply Z.eqb_eq]. }
  congruence.
Qed.

Lemma generate_student_quiz_attempted_witness :
  exists g,
    fst (generate_student_quiz
           (constant_runtime (LlmText (Some (lit "{}")))
                             (Some (questions_document [sample_question]))
                             true)
           (world_with []) 9 4) = Ok g
    /\ names_attempt
         (snd (generate_student_quiz
                 (constant_runtime (LlmText (Some (lit "{}")))
                                   (Some (questions_document [sample_question]))
                                   true)
                 (world_with []) 9 4)) 4 9 g.
Proof.
  eexists. split; [reflexivity|].
  refine (proj1 (generate_student_quiz_attempted
                   (constant_runtime (LlmText (Some (lit "{}")))
                                     (Some (questions_document [sample_question]))
                                     true)
                   (world_with []) _ 9 4 _ _)).
  reflexivity.
Defined.

(** X21. On a table of attempts with distinct keys, a generate call,
    successful or not, changes the list of quizzes of no student: every
    quiz keeps its status, its attempted flag and its score, so that a quiz
    whose questions were only generated is listed as it was before. *)
Theorem generate_student_quiz_keeps_quiz_list (rt : runtime) (w w' : world)
    (qid sid : Z) (r : response generated) :
  unique_ids w ->
  generate_student_quiz rt w qid sid = (r, w') ->
  forall newest_first sid',
    get_student_quizzes newest_first w' sid'
    = get_student_quizzes newest_first w sid'.
Proof.
  intros Hnd H newest_first sid'.
  destruct (generate_student_quiz_scores rt w w' qid sid r Hnd H)
    as (Hs & Hq & Hm).
  unfold get_student_quizzes, find_student, quizzes_of.
  now rewrite Hs, Hq, Hm.
Qed.

Lemma generate_student_quiz_keeps_quiz_list_witness :
  get_student_quizzes (fun l => l)
    (snd (generate_student_quiz
            (constant_runtime (LlmText (Some (lit "{}")))
                              (Some (questions_document [sample_question]))
                              true)
            (world_with [submitted_attempt]) 9 4)) 4
  = get_student_quizzes (fun l => l) (world_with [submitted_attempt]) 4.
Proof.
  apply (generate_student_quiz_keeps_quiz_list
           (constant_runtime (LlmText (Some (lit "{}")))
                             (Some (questions_document [sample_question]))
                             true)
           (world_with [submitted_attempt]) _ 9 4
           (fst (generate_student_quiz
                   (constant_runtime (LlmText (Some (lit "{}")))
                                     (Some (questions_document [sample_question]))
                                     true)
                   (world_with [submitted_attempt]) 9 4))).
  - repeat constructor. intros [].
  - apply surjective_pairing.
Defined.

Lemma split_chr_two (c : ascii) (d : str) :
  ~ In c d ->
  forall a cur, ~ In c a ->
                split_aux [c] 0 cur (a ++ c :: d) = [rev cur ++ a; d].
Proof.
  intros Hd. induction a as [|x a IH]; intros cur Ha.
  - rewrite app_nil_l, split_chr_cons, Ascii.eqb_refl, app_nil_r.
    now rewrite split_chr_absent.
  - rewrite <- app_comm_cons, split_chr_cons.
    destruct (Ascii.eqb c x) eqn:E.
    + apply Ascii.eqb_eq in E. subst. exfalso. apply Ha. now left.
    + rewrite IH by (intros H; apply Ha; now right).
      cbn [rev]. now rewrite <- app_assoc.
Qed.

Lemma is_digit_not_slash (c : ascii) : is_digit c -> c <> "/"%char.
Proof.
  intros H.
  destruct c as [[] [] [] [] [] [] [] []];
    try (exfalso; apply H; reflexivity); discriminate.
Qed.

Lemma str_of_Z_no_slash (z : Z) : 0 <= z -> ~ In "/"%char (str_of_Z z).
Proof.
  intros Hz Hin. pose proof (str_of_Z_digits z Hz) as Hd.
  rewrite Forall_forall in Hd. now apply (is_digit_not_slash _ (Hd _ Hin)).
Qed.

Lemma split_count_score (c n : nat) :
  split (lit "/") (count_score c n)
  = [str_of_Z (Z.of_nat c); str_of_Z (Z.of_nat n)].
Proof.
  unfold split, count_score.
  change (lit "/") with ["/"%char].
  now rewrite split_chr_two by (apply str_of_Z_no_slash; lia).
Qed.

Lemma count_correct_le {A : Type} (f : A -> bool) (l : list A) :
  (count_correct f l <= List.length l)%nat.
Proof. apply filter_length_le. Qed.

(** X22. The score string the local grading writes is read back by the
    average of a student as it was meant: it has the two parts the average
    asks for, the count of correct answers and the number of questions, the
    first never above the second; the attempt counts with their ratio times
    100 when the number of questions reads as positive, and is skipped
    otherwise, as for a quiz without questions. *)
Theorem objective_score_percentage (rt : runtime) (questions : list dict)
    (answers : dict) (a : StudentAttempt) (num den : float) :
  attempt_score a
  = Some (graded_score (graded_of (grade_objective questions answers))) ->
  float_of_str rt
    (str_of_Z (Z.of_nat (count_correct (objective_is_correct answers)
                                       questions))) = Some num ->
  float_of_str rt (str_of_Z (Z.of_nat (List.length questions))) = Some den ->
  attempt_percentage rt a
  = (if SFltb fzero den then Some (fmul (fdiv num den) f100) else None)
  /\ (count_correct (objective_is_correct answers) questions
      <= List.length questions)%nat.
Proof.
  intros Hs Hn Hd. split; [|apply count_correct_le].
  unfold attempt_percentage. rewrite Hs.
  change (graded_score (graded_of (grade_objective questions answers)))
    with (count_score (count_correct (objective_is_correct answers) questions)
                      (List.length questions)).
  rewrite split_count_score, Hn, Hd.
  unfold count_score.
  destruct (str_of_Z (Z.of_nat (count_correct (objective_is_correct answers)
                                              questions))); reflexivity.
Qed.

Lemma objective_score_percentage_witness :
  attempt_percentage decimal_runtime objective_attempt
  = Some (fmul (fdiv (float_of_count 1) (float_of_count 1)) f100).
Proof.
  refine (proj1 (objective_score_percentage decimal_runtime [sample_question]
                   [(lit "1", PStr (lit "4"))] objective_attempt
                   (float_of_count 1) (float_of_count 1) _ _ _));
    reflexivity.
Defined.
